(** * SecureStorage: password-derived encryption of IndexedDB records

    A shallow embedding of [src/SecureStorage.ts].  The class keeps one
    AES-GCM master key derived with PBKDF2 from a password and a salt,
    seals JSON payloads under it, stores the sealed entries in IndexedDB
    and re-seals them when the password changes.

    The embedding is a state-and-exception monad over the instance fields
    ([masterKey], [ready]) and the browser state the class touches
    (IndexedDB, the random source, the clock, the console).  The Web
    Crypto, JSON and text-encoding built-ins are an interface
    ([WebPlatform]); their contracts are stated separately
    ([PlatformLaws]) and a small reference platform implements them so
    that every operation can be evaluated on concrete inputs. *)

From Stdlib Require Import Strings.Byte Strings.Ascii Numbers.DecimalString.
From Stdlib Require Import Numbers.DecimalPos Numbers.DecimalZ.
From stdpp Require Import base option strings list gmap.

Set Default Proof Using "Type".

(** ** Data *)

(** [Uint8Array] and [ArrayBuffer] contents. *)
Abbreviation Bytes := (list Byte.byte).

#[global] Instance byte_eq_dec : EqDecision Byte.byte := Byte.byte_eq_dec.

(** The class constants. *)
Definition SALT_LENGTH : nat := 16.
Definition IV_LENGTH : nat := 12.
Definition KEY_LENGTH : N := 256.
Definition ITERATIONS : N := 100000.
Definition ALGO : string := "AES-GCM".
Definition KEY_DERIVATION : string := "PBKDF2".

(** What a [throw] carries: an [Error] built by the class (identified by
    its message) or an exception raised by a built-in. *)
Inductive Exn : Type :=
  | Error (message : string)
  | DOMException (name : string)
  | TypeError
  | SyntaxError.

#[global] Instance Exn_eq_dec : EqDecision Exn.
Proof. solve_decision. Defined.

(** The messages of the errors the class throws. *)
Definition MSG_INITIALIZE : string := "Impossible d'initialiser le chiffrement".
Definition MSG_SECURITY_DB : string :=
  "Impossible d'accéder à la base de paramètres de sécurité".
Definition MSG_KEY_NOT_INITIALIZED : string := "Clé de chiffrement non initialisée".
Definition MSG_ENCRYPT : string := "Échec du chiffrement des données".
Definition MSG_DECRYPT : string := "Échec du déchiffrement des données".
Definition MSG_STORE : string := "Impossible de stocker les données chiffrées".
Definition MSG_RETRIEVE : string := "Impossible de récupérer les données déchiffrées".
Definition MSG_OPEN_DATABASE (dbName : string) : string :=
  "Impossible d'ouvrir la base de données " +:+ dbName.
Definition MSG_CURRENT_KEY : string := "Clé de chiffrement actuelle non initialisée".
Definition MSG_CHANGE_PASSWORD : string := "Impossible de changer le mot de passe".

(** The outcome of an [async] method once its promise has settled. *)
Inductive Result (A : Type) : Type :=
  | Return (a : A)
  | Throw (e : Exn).
Arguments Return {A} a.
Arguments Throw {A} e.

(** A settled promise of [void]. *)
Inductive Settled : Type :=
  | Fulfilled
  | Rejected (reason : Exn).

(** The object written by [storeEncrypted]:
    [{ key, encryptedData, iv, timestamp }]. *)
Record Entry : Type := {
  key : string;
  encryptedData : Bytes;
  iv : Bytes;
  timestamp : Z;
}.

(** An object store with key path ["key"]: its entries in ascending key
    order, which is the order [getAll] reports them in.  Keys are
    strings, compared character by character; IndexedDB compares UTF-16
    code units, which gives the same order except between characters
    outside the basic plane and those from U+E000 up. *)
Abbreviation ObjectStore := (list Entry).

Fixpoint objectStore_put (item : Entry) (store : ObjectStore) : ObjectStore :=
  match store with
  | [] => [item]
  | x :: rest =>
      match String.compare (key item) (key x) with
      | Lt => item :: x :: rest
      | Eq => item :: rest
      | Gt => x :: objectStore_put item rest
      end
  end.

Fixpoint objectStore_lookup (k : string) (store : ObjectStore) : option Entry :=
  match store with
  | [] => None
  | x :: rest => if decide (key x = k) then Some x else objectStore_lookup k rest
  end.

(** An [IDBRequest]: the object [store.get] and [store.put] return.  Its
    [result] is filled in when the success event fires. *)
Record IDBRequest (A : Type) : Type := { result : A }.
Arguments result {A} _.

(** The browser state the class reads and writes.

    - [databases]: the IndexedDB databases opened through [openDatabase],
      by name, each a map from object-store names to object stores;
    - [securityDb]: the database ["SecureStorageParams"], [None] while it
      has not been created, otherwise its ["params"] store keyed by [id]
      (it is kept apart from [databases]: a user database of that name
      is outside the model);
    - [unavailable]: the databases whose open request fires [onerror];
    - [entropy], [drawn]: the bytes [crypto.getRandomValues] hands out
      and how many were handed out so far;
    - [clock], [ticks]: the successive readings of [Date.getTime];
    - [console]: what [console.error] printed, latest first. *)
Record World : Type := {
  databases : gmap string (gmap string ObjectStore);
  securityDb : option (gmap string Bytes);
  unavailable : gset string;
  entropy : nat → Byte.byte;
  drawn : nat;
  clock : nat → Z;
  ticks : nat;
  console : list (string * Exn);
}.

Definition set_securityDb (params : gmap string Bytes) (w : World) : World :=
  {| databases := databases w; securityDb := Some params;
     unavailable := unavailable w;
     entropy := entropy w; drawn := drawn w;
     clock := clock w; ticks := ticks w;
     console := console w |}.

Definition set_databases (dbs : gmap string (gmap string ObjectStore)) (w : World) : World :=
  {| databases := dbs; securityDb := securityDb w;
     unavailable := unavailable w;
     entropy := entropy w; drawn := drawn w;
     clock := clock w; ticks := ticks w;
     console := console w |}.

Definition set_drawn (n : nat) (w : World) : World :=
  {| databases := databases w; securityDb := securityDb w;
     unavailable := unavailable w;
     entropy := entropy w; drawn := n;
     clock := clock w; ticks := ticks w;
     console := console w |}.

Definition set_ticks (n : nat) (w : World) : World :=
  {| databases := databases w; securityDb := securityDb w;
     unavailable := unavailable w;
     entropy := entropy w; drawn := drawn w;
     clock := clock w; ticks := n;
     console := console w |}.

Definition set_console (lines : list (string * Exn)) (w : World) : World :=
  {| databases := databases w; securityDb := securityDb w;
     unavailable := unavailable w;
     entropy := entropy w; drawn := drawn w;
     clock := clock w; ticks := ticks w;
     console := lines |}.

(** ** The platform built-ins

    The class is generic in the payload type [T] and calls Web Crypto,
    [JSON] and the text codecs; none of them is code of the class.
    - [importKey] is [crypto.subtle.importKey("raw", bytes,
      { name: KEY_DERIVATION })];
    - [deriveKey salt iterations baseKey length] is
      [crypto.subtle.deriveKey] with [KEY_DERIVATION] and SHA-256 towards
      a non-extractable [ALGO] key of [length] bits; [None] is a
      rejected promise;
    - [aes_gcm_encrypt] and [aes_gcm_decrypt] are [crypto.subtle.encrypt]
      and [crypto.subtle.decrypt] with [{ name: ALGO, iv }];
      decryption is [None] when the authentication tag does not match;
    - [JSON_stringify] is [None] when [JSON.stringify] throws,
      [JSON_parse] when [JSON.parse] throws.  [Payload] stands for the
      JSON-serializable values the class documents as its input; a value
      for which [JSON.stringify] returns [undefined] is not one.

    AES-GCM encryption under a valid key does not fail below the size
    limit of the mode, which the model leaves out. *)
Class WebPlatform : Type := {
  BaseKey : Type;
  CryptoKey : Type;
  Payload : Type;
  importKey : Bytes → option BaseKey;
  deriveKey : Bytes → N → BaseKey → N → option CryptoKey;
  aes_gcm_encrypt : CryptoKey → Bytes → Bytes → Bytes;
  aes_gcm_decrypt : CryptoKey → Bytes → Bytes → option Bytes;
  JSON_stringify : Payload → option string;
  JSON_parse : string → option Payload;
  TextEncoder_encode : string → Bytes;
  TextDecoder_decode : Bytes → string;
}.

(** The contracts of the built-ins that the round trip relies on:
    AES-GCM opens what it sealed under the same key and nonce, the text
    [JSON.stringify] produces survives UTF-8 encoding and decoding (it
    holds no lone surrogate), and [JSON.parse] reads it back as the
    value it was produced from. *)
Class PlatformLaws (P : WebPlatform) : Prop := {
  aes_gcm_correct : ∀ k nonce plaintext,
    aes_gcm_decrypt k nonce (aes_gcm_encrypt k nonce plaintext) = Some plaintext;
  utf8_correct : ∀ v s,
    JSON_stringify v = Some s → TextDecoder_decode (TextEncoder_encode s) = s;
  JSON_correct : ∀ v s,
    JSON_stringify v = Some s → JSON_parse s = Some v;
}.

Section SecureStorage.
Context `{P : WebPlatform}.

(** The instance fields.  [ready] is the promise the constructor stored,
    recorded in its settled state. *)
Record SecureStorage : Type := {
  masterKey : option CryptoKey;
  ready : Settled;
}.

(** What a method runs against: [this] and the browser. *)
Record Env : Type := {
  this : SecureStorage;
  world : World;
}.

(** An [async] method run to settlement: it ends by returning or by
    throwing, and either way leaves the fields and the browser as it
    changed them (a [throw] undoes nothing). *)
Definition Async (A : Type) : Type := Env → Result A * Env.

#[export] Instance Async_ret : MRet Async := λ A a env, (Return a, env).

#[export] Instance Async_bind : MBind Async := λ A B f m env,
  match m env with
  | (Return a, env') => f a env'
  | (Throw e, env') => (Throw e, env')
  end.

Definition throw {A : Type} (e : Exn) : Async A := λ env, (Throw e, env).

(** [try { body } catch (error) { handler error }] *)
Definition try_catch {A : Type} (body : Async A) (handler : Exn → Async A) : Async A :=
  λ env,
    match body env with
    | (Return a, env') => (Return a, env')
    | (Throw e, env') => handler e env'
    end.

(** [for (const x of xs) { body x }] *)
Fixpoint for_of {A : Type} (xs : list A) (body : A → Async unit) : Async unit :=
  match xs with
  | [] => mret ()
  | x :: rest => body x ≫= λ _, for_of rest body
  end.

Definition get_world : Async World := λ env, (Return (world env), env).

Definition put_world (w : World) : Async unit :=
  λ env, (Return (), {| this := this env; world := w |}).

(** [this.masterKey] *)
Definition get_masterKey : Async (option CryptoKey) :=
  λ env, (Return (masterKey (this env)), env).

(** [this.masterKey = k] *)
Definition set_masterKey (k : option CryptoKey) : Async unit :=
  λ env, (Return (), {| this := {| masterKey := k; ready := ready (this env) |};
                        world := world env |}).

(** [await this.ready] *)
Definition await_ready : Async unit :=
  λ env,
    match ready (this env) with
    | Fulfilled => (Return (), env)
    | Rejected reason => (Throw reason, env)
    end.

(** A rejected promise or a thrown exception of a built-in. *)
Definition or_throw {A : Type} (o : option A) (e : Exn) : Async A :=
  match o with
  | Some a => mret a
  | None => throw e
  end.

(** ** Browser primitives *)

(** [console.error(message, error)] *)
Definition console_error (message : string) (error : Exn) : Async unit :=
  w ← get_world;
  put_world (set_console ((message, error) :: console w) w).

(** The [n] bytes the random source hands out after [from]. *)
Definition random_block (w : World) (from n : nat) : Bytes :=
  map (entropy w) (seq from n).

(** [crypto.getRandomValues(new Uint8Array(n))] *)
Definition getRandomValues (n : nat) : Async Bytes :=
  w ← get_world;
  put_world (set_drawn (drawn w + n) w);;
  mret (random_block w (drawn w) n).

(** [new Date().getTime()] *)
Definition Date_getTime : Async Z :=
  w ← get_world;
  put_world (set_ticks (S (ticks w)) w);;
  mret (clock w (ticks w)).

(** [await x] where [x] is not a thenable: the value of the expression
    is [x] itself.  [store.get] and [store.put] return an [IDBRequest],
    which has no [then]. *)
Definition await_request {A : Type} (request : IDBRequest A) : Async (IDBRequest A) :=
  mret request.

(** Reading a property that [IDBRequest] does not define ([value],
    [encryptedData], [iv]) gives [undefined]. *)
Definition undefined_property {A B : Type} (request : IDBRequest A) : option B := None.

(** An object is truthy. *)
Definition truthy_object {A : Type} (request : IDBRequest A) : bool := true.

(** ** The methods of the class *)

(** [openSecurityDb]: [indexedDB.open("SecureStorageParams", 1)], which
    creates the ["params"] store when the database is new. *)
Definition openSecurityDb : Async unit :=
  w ← get_world;
  if decide ("SecureStorageParams" ∈ unavailable w)
  then throw (Error MSG_SECURITY_DB)
  else match securityDb w with
       | Some _ => mret ()
       | None => put_world (set_securityDb ∅ w)
       end.

(** [db.transaction(["params"], mode).objectStore("params")] *)
Definition params_store : Async (gmap string Bytes) :=
  w ← get_world;
  or_throw (securityDb w) (DOMException "NotFoundError").

(** [saveSecurityParams(salt)].  A [put] is taken to succeed: IndexedDB
    reports a failed request through its [error] event, which the class
    does not listen to. *)
Definition saveSecurityParams (salt : Bytes) : Async unit :=
  openSecurityDb;;
  store ← params_store;
  (* await store.put({ id: "salt", value: salt }) *)
  w ← get_world;
  put_world (set_securityDb (<["salt" := salt]> store) w).

(** [getSecurityParams()] *)
Definition getSecurityParams : Async (option Bytes) :=
  try_catch
    (openSecurityDb;;
     store ← params_store;
     saltObj ← await_request {| result := store !! "salt" |};
     (* return saltObj?.value || null *)
     mret (undefined_property saltObj))
    (λ error,
       console_error "Erreur lors de la récupération des paramètres de sécurité:" error;;
       mret None).

(** [initialize(password, providedSalt)].  A [Uint8Array] is an object,
    so [providedSalt || ...] is [providedSalt] whenever one is passed. *)
Definition initialize (password : string) (providedSalt : option Bytes) : Async unit :=
  try_catch
    (salt ← match providedSalt with
            | Some s => mret s
            | None => getRandomValues SALT_LENGTH
            end;
     let passwordBuffer := TextEncoder_encode password in
     baseKey ← or_throw (importKey passwordBuffer) (DOMException "OperationError");
     derived ← or_throw (deriveKey salt ITERATIONS baseKey KEY_LENGTH)
                        (DOMException "OperationError");
     set_masterKey (Some derived);;
     saveSecurityParams salt)
    (λ error,
       console_error "Erreur lors de l'initialisation du chiffrement:" error;;
       throw (Error MSG_INITIALIZE)).

(** [new SecureStorage(password, salt)], once the promise stored in
    [ready] has settled. *)
Definition new_SecureStorage (password : string) (salt : option Bytes) (w : World) : Env :=
  let fresh := {| this := {| masterKey := None; ready := Fulfilled |}; world := w |} in
  match initialize password salt fresh with
  | (Return _, env) =>
      {| this := {| masterKey := masterKey (this env); ready := Fulfilled |};
         world := world env |}
  | (Throw e, env) =>
      {| this := {| masterKey := masterKey (this env); ready := Rejected e |};
         world := world env |}
  end.

(** [encrypt(data)] *)
Definition encrypt (data : Payload) : Async (Bytes * Bytes) :=
  await_ready;;
  current ← get_masterKey;
  match current with
  | None => throw (Error MSG_KEY_NOT_INITIALIZED)
  | Some k =>
      try_catch
        (jsonString ← or_throw (JSON_stringify data) TypeError;
         let dataBuffer := TextEncoder_encode jsonString in
         nonce ← getRandomValues IV_LENGTH;
         mret (aes_gcm_encrypt k nonce dataBuffer, nonce))
        (λ error,
           console_error "Erreur lors du chiffrement:" error;;
           throw (Error MSG_ENCRYPT))
  end.

(** [crypto.subtle.decrypt({ name: "AES-GCM", iv }, key, data)]: a
    [TypeError] when [iv] or [data] is [undefined], an [OperationError]
    when the tag does not match. *)
Definition subtle_decrypt (k : CryptoKey) (nonce data : option Bytes) : Async Bytes :=
  match nonce, data with
  | Some n, Some d => or_throw (aes_gcm_decrypt k n d) (DOMException "OperationError")
  | _, _ => throw TypeError
  end.

(** [decrypt(encryptedData, iv)]; [None] is an argument that is
    [undefined] at run time. *)
Definition decrypt (encrypted nonce : option Bytes) : Async Payload :=
  await_ready;;
  current ← get_masterKey;
  match current with
  | None => throw (Error MSG_KEY_NOT_INITIALIZED)
  | Some k =>
      try_catch
        (decryptedBuffer ← subtle_decrypt k nonce encrypted;
         let jsonString := TextDecoder_decode decryptedBuffer in
         or_throw (JSON_parse jsonString) SyntaxError)
        (λ error,
           console_error "Erreur lors du déchiffrement:" error;;
           throw (Error MSG_DECRYPT))
  end.

(** [openDatabase(dbName, storeName)]: [indexedDB.open(dbName, 1)].  The
    upgrade handler runs only when the database is new, and creates the
    store [storeName] in it.  [dbName] is looked up among the
    application's databases: the parameter database of the class is kept
    apart in [securityDb], so this is the code's behaviour for every
    name but ["SecureStorageParams"]. *)
Definition openDatabase (dbName storeName : string) : Async unit :=
  w ← get_world;
  if decide (dbName ∈ unavailable w)
  then throw (Error (MSG_OPEN_DATABASE dbName))
  else match databases w !! dbName with
       | Some _ => mret ()
       | None => put_world (set_databases (<[dbName := {[ storeName := [] ]}]> (databases w)) w)
       end.

(** [db.transaction([storeName], mode).objectStore(storeName)]: a
    [NotFoundError] when the database has no such store. *)
Definition objectStore (dbName storeName : string) : Async ObjectStore :=
  w ← get_world;
  or_throw (databases w !! dbName ≫= λ db, db !! storeName) (DOMException "NotFoundError").

(** [store.put(item)] on the store [storeName] of [dbName].  The code
    awaits the request object, not its outcome: a [put] issued is taken
    to take effect. *)
Definition put_item (dbName storeName : string) (item : Entry) : Async unit :=
  w ← get_world;
  match databases w !! dbName with
  | Some db =>
      match db !! storeName with
      | Some store =>
          put_world (set_databases
            (<[dbName := <[storeName := objectStore_put item store]> db]> (databases w)) w)
      | None => throw (DOMException "NotFoundError")
      end
  | None => throw (DOMException "NotFoundError")
  end.

(** [storeEncrypted(dbName, storeName, key, data)] *)
Definition storeEncrypted (dbName storeName : string) (k : string) (data : Payload)
  : Async unit :=
  try_catch
    ('(encrypted, nonce) ← encrypt data;
     openDatabase dbName storeName;;
     _ ← objectStore dbName storeName;
     now ← Date_getTime;
     put_item dbName storeName
       {| key := k; encryptedData := encrypted; iv := nonce; timestamp := now |})
    (λ error,
       console_error "Erreur lors du stockage des données chiffrées:" error;;
       throw (Error MSG_STORE)).

(** [retrieveDecrypted(dbName, storeName, key)].  [store.get(key)] is
    awaited as it is, not through a promise resolved by its [onsuccess]
    as [getAll] is in [changePassword]: the value of the [await] is the
    request object, which is truthy, and the [encryptedData] and [iv]
    read from it are [undefined]. *)
Definition retrieveDecrypted (dbName storeName : string) (k : string)
  : Async (option Payload) :=
  try_catch
    (openDatabase dbName storeName;;
     store ← objectStore dbName storeName;
     request ← await_request {| result := objectStore_lookup k store |};
     if negb (truthy_object request)
     then mret None
     else
       data ← decrypt (undefined_property request) (undefined_property request);
       mret (Some data))
    (λ error,
       console_error "Erreur lors de la récupération des données:" error;;
       throw (Error MSG_RETRIEVE)).

(** The body of the inner loop of [changePassword]. *)
Definition reencrypt_item (oldKey : CryptoKey) (dbName storeName : string) (item : Entry)
  : Async unit :=
  set_masterKey (Some oldKey);;
  decryptedData ← decrypt (Some (encryptedData item)) (Some (iv item));
  storeEncrypted dbName storeName (key item) decryptedData.

(** The body of the outer loop of [changePassword]: [getAll] is read
    through a promise resolved by the request's [onsuccess]. *)
Definition reencrypt_store (oldKey : CryptoKey) (newPassword dbName storeName : string)
  : Async unit :=
  openDatabase dbName storeName;;
  store ← objectStore dbName storeName;
  let allItems := result {| result := store |} in
  initialize newPassword None;;
  for_of allItems (reencrypt_item oldKey dbName storeName).

(** [changePassword(newPassword, dbName, storeNames)] *)
Definition changePassword (newPassword dbName : string) (storeNames : list string)
  : Async unit :=
  oldKey ← get_masterKey;
  match oldKey with
  | None => throw (Error MSG_CURRENT_KEY)
  | Some old =>
      try_catch
        (for_of storeNames (reencrypt_store old newPassword dbName))
        (λ error,
           console_error "Erreur lors du changement de mot de passe:" error;;
           throw (Error MSG_CHANGE_PASSWORD))
  end.

(** ** Observations used in the statements *)

(** The salt [initialize] derives the key from. *)
Definition salt_used (providedSalt : option Bytes) (w : World) : Bytes :=
  match providedSalt with
  | Some s => s
  | None => random_block w (drawn w) SALT_LENGTH
  end.

(** The value of the record [{ id: "salt" }] of the parameter store. *)
Definition persisted_salt (w : World) : option Bytes :=
  securityDb w ≫= λ params, params !! "salt".

(** The entries of the store [storeName] of the database [dbName]. *)
Definition entries (w : World) (dbName storeName : string) : option ObjectStore :=
  databases w !! dbName ≫= λ db, db !! storeName.

(** [encrypt] called once for each element of [datas], in order. *)
Fixpoint encrypt_calls (datas : list Payload) : Async (list (Bytes * Bytes)) :=
  match datas with
  | [] => mret []
  | data :: rest =>
      sealed ← encrypt data;
      others ← encrypt_calls rest;
      mret (sealed :: others)
  end.

(** The [n] successive blocks of [IV_LENGTH] bytes the random source
    hands out from the state [w] on. *)
Definition nonce_blocks (w : World) (n : nat) : list Bytes :=
  map (λ i, random_block w (drawn w + IV_LENGTH * i) IV_LENGTH) (seq 0 n).

(** The entry [storeEncrypted] writes under [k] for the text
    [jsonString] when it runs in the state [env] with the master key
    [current]: sealed with the nonce drawn next, stamped with the next
    reading of the clock. *)
Definition entry_written (current : CryptoKey) (k jsonString : string) (env : Env)
  : Entry :=
  let nonce := random_block (world env) (drawn (world env)) IV_LENGTH in
  {| key := k;
     encryptedData := aes_gcm_encrypt current nonce (TextEncoder_encode jsonString);
     iv := nonce;
     timestamp := clock (world env) (ticks (world env)) |}.

(** [m] keeps the relation [R] between the state it starts in and the
    state it ends in, whether it returns or throws. *)
Definition preserved {A : Type} (R : Env → Env → Prop) (m : Async A) : Prop :=
  ∀ env, R env (snd (m env)).

(** Between [before] and [after] the promise [ready] has not been
    settled again and the master key has not been unset. *)
Definition settled_as_before (before after : Env) : Prop :=
  ready (this after) = ready (this before)
  ∧ (is_Some (masterKey (this before)) → is_Some (masterKey (this after))).

End SecureStorage.

(** ** A reference platform

    A small implementation of [WebPlatform] on which the methods can be
    run: keys are the tuple they were derived from, a sealed buffer
    carries its key and nonce in front of the plaintext and opens only
    under them, and JSON values are printed and parsed without white
    space, with integers for numbers and the escapes of the quote and
    the backslash in strings.  It stands for the functional contract of
    the built-ins, not for their secrecy. *)
Module Reference.

(** The key PBKDF2 derives, named by what it was derived from. *)
Record DerivedKey : Type := {
  password : Bytes;
  salt : Bytes;
  iterations : N;
  bits : N;
}.

Definition header (k : DerivedKey) (nonce : Bytes) : Bytes :=
  salt k ++ password k ++ nonce.

Definition seal (k : DerivedKey) (nonce plaintext : Bytes) : Bytes :=
  header k nonce ++ plaintext.

Definition open (k : DerivedKey) (nonce sealed : Bytes) : option Bytes :=
  let h := header k nonce in
  if decide (take (length h) sealed = h) then Some (drop (length h) sealed) else None.

(** JSON values; numbers are integers, objects list their members in
    order. *)
#[local] Unset Elimination Schemes.
Inductive json : Type :=
  | JNull
  | JBool (b : bool)
  | JNumber (n : Z)
  | JString (s : string)
  | JArray (elements : list json)
  | JObject (members : list (string * json)).
#[local] Set Elimination Schemes.

(** Induction on JSON values, with the hypothesis for every element of
    an array and every member of an object. *)
Fixpoint json_ind (Q : json → Prop)
    (HNull : Q JNull) (HBool : ∀ b, Q (JBool b)) (HNumber : ∀ n, Q (JNumber n))
    (HString : ∀ s, Q (JString s))
    (HArray : ∀ xs, Forall Q xs → Q (JArray xs))
    (HObject : ∀ ms, Forall (λ m, Q m.2) ms → Q (JObject ms))
    (v : json) : Q v :=
  let go := json_ind Q HNull HBool HNumber HString HArray HObject in
  match v with
  | JNull => HNull
  | JBool b => HBool b
  | JNumber n => HNumber n
  | JString s => HString s
  | JArray xs =>
      HArray xs ((fix all (l : list json) : Forall Q l :=
                    match l with
                    | [] => @List.Forall_nil _ Q
                    | x :: r => @List.Forall_cons _ Q x r (go x) (all r)
                    end) xs)
  | JObject ms =>
      HObject ms ((fix all (l : list (string * json)) : Forall (λ m, Q m.2) l :=
                     match l with
                     | [] => @List.Forall_nil _ (λ m, Q m.2)
                     | m :: r => @List.Forall_cons _ (λ m, Q m.2) m r (go m.2) (all r)
                     end) ms)
  end.

Definition chars (s : string) : list ascii := String.list_ascii_of_string s.

(** The double quote. *)
Definition dquote : ascii := "034"%char.

Definition escape (c : ascii) : list ascii :=
  if decide (c = dquote) then ["\"%char; dquote]
  else if decide (c = "\"%char) then ["\"%char; "\"%char]
  else [c].

Definition print_string (s : string) : list ascii :=
  dquote :: flat_map escape (chars s) ++ [dquote].

Definition print_number (n : Z) : list ascii :=
  chars (NilEmpty.string_of_int (Z.to_int n)).

(** What follows the first element of an array, and the first member of
    an object, up to the closing bracket; [value] prints a value. *)
Definition print_elements (value : json → list ascii) : list json → list ascii :=
  fix tail (xs : list json) : list ascii :=
    match xs with
    | [] => ["]"%char]
    | y :: ys => ","%char :: value y ++ tail ys
    end.

Definition print_members (value : json → list ascii)
  : list (string * json) → list ascii :=
  fix tail (ms : list (string * json)) : list ascii :=
    match ms with
    | [] => ["}"%char]
    | m :: ys => ","%char :: print_string m.1 ++ ":"%char :: value m.2 ++ tail ys
    end.

Fixpoint print (v : json) : list ascii :=
  match v with
  | JNull => chars "null"
  | JBool true => chars "true"
  | JBool false => chars "false"
  | JNumber n => print_number n
  | JString s => print_string s
  | JArray [] => chars "[]"
  | JArray (x :: rest) => "["%char :: print x ++ print_elements print rest
  | JObject [] => chars "{}"
  | JObject (m :: rest) =>
      "{"%char :: print_string m.1 ++ ":"%char :: print m.2 ++ print_members print rest
  end.

(** [strip p s] is what follows the prefix [p] of [s]. *)
Fixpoint strip (p s : list ascii) : option (list ascii) :=
  match p, s with
  | [], _ => Some s
  | a :: p', b :: s' => if decide (a = b) then strip p' s' else None
  | _ :: _, [] => None
  end.

(** The characters of a string literal up to its closing quote. *)
Fixpoint parse_string (s : list ascii) : option (list ascii * list ascii) :=
  match s with
  | [] => None
  | c :: r =>
      if decide (c = dquote) then Some ([], r)
      else if decide (c = "\"%char) then
        match r with
        | e :: r' =>
            if decide (e = dquote ∨ e = "\"%char)
            then '(str, rest) ← parse_string r'; Some (e :: str, rest)
            else None
        | [] => None
        end
      else '(str, rest) ← parse_string r; Some (c :: str, rest)
  end.

Definition is_number_char (c : ascii) : bool :=
  bool_decide (c ∈ chars "-0123456789").

Fixpoint span (f : ascii → bool) (s : list ascii) : list ascii * list ascii :=
  match s with
  | [] => ([], [])
  | c :: r => if f c then let '(a, b) := span f r in (c :: a, b) else ([], s)
  end.

Definition parse_number (s : list ascii) : option (Z * list ascii) :=
  let '(token, rest) := span is_number_char s in
  match token with
  | [] => None
  | _ :: _ =>
      d ← NilEmpty.int_of_string (String.string_of_list_ascii token);
      Some (Z.of_int d, rest)
  end.

(** One ["key":value] member, given the parser of values. *)
Definition parse_member (value : list ascii → option (json * list ascii))
    (s : list ascii) : option ((string * json) * list ascii) :=
  r ← strip [dquote] s;
  '(k, r1) ← parse_string r;
  r2 ← strip [":"%char] r1;
  '(v, r3) ← value r2;
  Some ((String.string_of_list_ascii k, v), r3).

Fixpoint parse_value (fuel : nat) (s : list ascii) {struct fuel}
  : option (json * list ascii) :=
  match fuel with
  | O => None
  | S f =>
      match s with
      | [] => None
      | c :: r =>
          if decide (c = "n"%char) then r' ← strip (chars "ull") r; Some (JNull, r')
          else if decide (c = "t"%char) then r' ← strip (chars "rue") r; Some (JBool true, r')
          else if decide (c = "f"%char) then r' ← strip (chars "alse") r; Some (JBool false, r')
          else if decide (c = dquote) then
            '(str, r') ← parse_string r; Some (JString (String.string_of_list_ascii str), r')
          else if decide (c = "["%char) then
            match strip ["]"%char] r with
            | Some r' => Some (JArray [], r')
            | None =>
                '(x, r1) ← parse_value f r;
                '(xs, r2) ← parse_elements f r1;
                Some (JArray (x :: xs), r2)
            end
          else if decide (c = "{"%char) then
            match strip ["}"%char] r with
            | Some r' => Some (JObject [], r')
            | None =>
                '(m, r1) ← parse_member (parse_value f) r;
                '(ms, r2) ← parse_members f r1;
                Some (JObject (m :: ms), r2)
            end
          else '(n, r') ← parse_number s; Some (JNumber n, r')
      end
  end
with parse_elements (fuel : nat) (s : list ascii) {struct fuel}
  : option (list json * list ascii) :=
  match fuel with
  | O => None
  | S f =>
      match s with
      | [] => None
      | c :: r =>
          if decide (c = "]"%char) then Some ([], r)
          else if decide (c = ","%char) then
            '(x, r1) ← parse_value f r;
            '(xs, r2) ← parse_elements f r1;
            Some (x :: xs, r2)
          else None
      end
  end
with parse_members (fuel : nat) (s : list ascii) {struct fuel}
  : option (list (string * json) * list ascii) :=
  match fuel with
  | O => None
  | S f =>
      match s with
      | [] => None
      | c :: r =>
          if decide (c = "}"%char) then Some ([], r)
          else if decide (c = ","%char) then
            '(m, r1) ← parse_member (parse_value f) r;
            '(ms, r2) ← parse_members f r1;
            Some (m :: ms, r2)
          else None
      end
  end.

Definition stringify (v : json) : option string :=
  Some (String.string_of_list_ascii (print v)).

Definition parse (s : string) : option json :=
  match parse_value (String.length s) (chars s) with
  | Some (v, []) => Some v
  | _ => None
  end.

(** A continuation [parse_number] can stop in front of: the end of the
    text or a character no number contains. *)
Definition ok_rest (r : list ascii) : Prop :=
  match r with
  | [] => True
  | c :: _ => is_number_char c = false
  end.

(** What [parse_value] is to establish for a value: it reads the value
    back from its print, whatever follows, given fuel for its length. *)
Definition parses (v : json) : Prop :=
  ∀ fuel r, length (print v) ≤ fuel → ok_rest r →
    parse_value fuel (print v ++ r) = Some (v, r).

#[export] Instance platform : WebPlatform := {|
  BaseKey := Bytes;
  CryptoKey := DerivedKey;
  Payload := json;
  importKey := λ raw, Some raw;
  deriveKey := λ s n baseKey len,
    Some {| password := baseKey; salt := s; iterations := n; bits := len |};
  aes_gcm_encrypt := seal;
  aes_gcm_decrypt := open;
  JSON_stringify := stringify;
  JSON_parse := parse;
  TextEncoder_encode := String.list_byte_of_string;
  TextDecoder_decode := String.string_of_list_byte;
|}.

End Reference.


(** ** Scenarios

    Concrete runs on the reference platform, following the README:
    construct the store, write two values, change the password, start
    again. *)
Module Scenario.
Import Reference.

(** A browser with nothing stored, a random source that counts and a
    clock that ticks. *)
Definition browser : World := {|
  databases := ∅;
  securityDb := None;
  unavailable := ∅;
  entropy := λ i, default "000"%byte (Byte.of_nat (i mod 256));
  drawn := 0;
  clock := λ i, (Z.of_nat i + 1700000000000)%Z;
  ticks := 0;
  console := [];
|}.

Definition user : json :=
  JObject [("id", JNumber 1); ("name", JString "Jean");
           ("preferences", JObject [("theme", JString "dark")])].

Definition other : json := JArray [JNull; JBool true; JNumber (-42)].

(** An instance whose key was never installed. *)
Definition unstarted : Env :=
  {| this := {| masterKey := None; ready := Rejected (Error MSG_INITIALIZE) |};
     world := browser |}.

(** [new SecureStorage("mot-de-passe-secret")] *)
Definition started : Env := new_SecureStorage "mot-de-passe-secret" None browser.

(** ... then [storeEncrypted] of [user] under ["a"] and of [other] under
    ["b"] in the store ["utilisateurs"] of ["ma-base"]. *)
Definition stored : Env :=
  snd (storeEncrypted "ma-base" "utilisateurs" "b" other
         (snd (storeEncrypted "ma-base" "utilisateurs" "a" user started))).

(** ... then [changePassword("nouveau-mot-de-passe", "ma-base",
    ["utilisateurs"])]. *)
Definition rotated : Result unit * Env :=
  changePassword "nouveau-mot-de-passe" "ma-base" ["utilisateurs"] stored.

(** The key PBKDF2 gives for the new password and the salt persisted by
    the rotation. *)
Definition newKey : DerivedKey :=
  {| password := String.list_byte_of_string "nouveau-mot-de-passe";
     salt := default [] (persisted_salt (world (snd rotated)));
     iterations := ITERATIONS; bits := KEY_LENGTH |}.

(** After the rotation, a store constructed with the new password and
    the salt the rotation persisted, and a store constructed with the
    old password and the old salt. *)
Definition newStore : Env :=
  new_SecureStorage "nouveau-mot-de-passe" (persisted_salt (world (snd rotated)))
    (world (snd rotated)).

Definition oldStore : Env :=
  new_SecureStorage "mot-de-passe-secret" (persisted_salt (world stored))
    (world (snd rotated)).

(** A second session after [stored]: the page is loaded again and the
    store constructed with the same password, no salt passed. *)
Definition restarted : Env :=
  new_SecureStorage "mot-de-passe-secret" None (world stored).

(** ["ma-base"] with a second store, ["archives"], holding one entry
    that was sealed under the key of another password. *)
Definition staleKey : DerivedKey :=
  {| password := String.list_byte_of_string "ancien-mot-de-passe";
     salt := random_block browser 200 SALT_LENGTH;
     iterations := ITERATIONS; bits := KEY_LENGTH |}.

Definition stale : Entry :=
  let nonce := random_block browser 216 IV_LENGTH in
  {| key := "x";
     encryptedData := seal staleKey nonce (String.list_byte_of_string "0");
     iv := nonce;
     timestamp := 1600000000000 |}.

Definition two_stores : Env :=
  {| this := this stored;
     world := set_databases
                (alter (λ db, <["archives" := [stale]]> db) "ma-base"
                   (databases (world stored)))
                (world stored) |}.

(** The nonce and the sealed buffer written for [user] in [stored], the
    buffer with its first byte dropped, and a buffer sealed under the
    same key and nonce whose content is not JSON. *)
Definition nonce_a : Bytes := random_block browser 16 IV_LENGTH.

Definition sealed_a : Bytes :=
  default []
    (encryptedData <$> (entries (world stored) "ma-base" "utilisateurs"
                          ≫= objectStore_lookup "a")).

Definition tampered : Bytes := drop 1 sealed_a.

Definition malformed : Bytes :=
  match masterKey (this stored) with
  | Some k => seal k nonce_a (String.list_byte_of_string "pas du JSON")
  | None => []
  end.

(** [stored] with the entry ["a"] replaced. *)
Definition with_entry_a (data : Bytes) : Env :=
  {| this := this stored;
     world := set_databases
                (alter (alter (objectStore_put
                                 {| key := "a"; encryptedData := data;
                                    iv := nonce_a; timestamp := 0 |})
                              "utilisateurs")
                       "ma-base" (databases (world stored)))
                (world stored) |}.

(** A world in which the databases [names] fail to open. *)
Definition failing (names : gset string) (w : World) : World :=
  {| databases := databases w; securityDb := securityDb w;
     unavailable := names;
     entropy := entropy w; drawn := drawn w;
     clock := clock w; ticks := ticks w;
     console := console w |}.

(** [stored] in a browser that refuses to open the parameter store. *)
Definition params_blocked : Env :=
  {| this := this stored; world := failing {["SecureStorageParams"]} (world stored) |}.

(** The key held by [stored] and the entry written for [user]. *)
Definition currentKey : DerivedKey := default staleKey (masterKey (this stored)).

Definition entry_a : Entry :=
  default stale (entries (world stored) "ma-base" "utilisateurs" ≫= objectStore_lookup "a").

(** The key PBKDF2 gives for the new password and the next random
    block of a world. *)
Definition nextKey (w : World) : DerivedKey :=
  {| password := String.list_byte_of_string "nouveau-mot-de-passe";
     salt := random_block w (drawn w) SALT_LENGTH;
     iterations := ITERATIONS; bits := KEY_LENGTH |}.

(** A store constructed in a browser that refuses to open the parameter
    store: its [ready] promise is rejected. *)
Definition refused : Env :=
  new_SecureStorage "mot-de-passe-secret" None (failing {["SecureStorageParams"]} browser).

(** A salt chosen by the application. *)
Definition chosen_salt : Bytes := String.list_byte_of_string "sel-fourni-16oct".

End Scenario.
(** ** Properties of the methods *)

(** Unfolds the monad of [Async] down to pairs of outcome and state. *)
Ltac run :=
  repeat (unfold mbind, mret, Async_bind, Async_ret, throw, try_catch, or_throw,
                 get_world, put_world, get_masterKey, set_masterKey, await_ready,
                 console_error;
          simpl).

(** Case analysis on an innermost [match] of a hypothesis or of the goal. *)
Ltac case_inner_in H :=
  match type of H with
  | context [match ?x with _ => _ end] =>
      lazymatch x with
      | context [match _ with _ => _ end] => fail
      | _ => destruct x eqn:?; simpl in H
      end
  end.

Ltac case_inner :=
  match goal with
  | |- context [match ?x with _ => _ end] =>
      lazymatch x with
      | context [match _ with _ => _ end] => fail
      | _ => destruct x eqn:?; simpl
      end
  end.

Section Properties.
Context `{P : WebPlatform}.

Implicit Types (env : Env) (w : World) (e : Exn).

(** *** Object stores *)

Lemma objectStore_lookup_put item store :
  objectStore_lookup (key item) (objectStore_put item store) = Some item.
Proof.
  induction store as [|x store IH]; simpl.
  - by rewrite decide_True.
  - destruct (String.compare (key item) (key x)) eqn:Hcmp; simpl.
    + by rewrite decide_True.
    + by rewrite decide_True.
    + rewrite decide_False; [done|].
      intros Heq. rewrite Heq in Hcmp.
      pose proof (String.compare_antisym (key item) (key item)) as Hanti.
      rewrite Hcmp in Hanti. discriminate.
Qed.

(** *** Password change: the guards *)

(** C6. Without a current master key [changePassword] throws the
    "current key not initialised" error at once and changes nothing: the
    fields of the instance and the whole browser state (every store, the
    persisted salt, the random source, the console) are as before. *)
Theorem changePassword_without_key (newPassword dbName : string)
    (storeNames : list string) env :
  masterKey (this env) = None →
  changePassword newPassword dbName storeNames env = (Throw (Error MSG_CURRENT_KEY), env).
Proof.
  intros Hkey. unfold changePassword. run. by rewrite Hkey.
Qed.

(** C9. With a master key set, [changePassword] over an empty list of
    stores returns normally and changes nothing: the master key is the
    one it was (no key is derived from [newPassword], whatever it is),
    and the persisted salt and every stored entry are untouched. *)
Theorem changePassword_no_stores (newPassword dbName : string) env (k : CryptoKey) :
  masterKey (this env) = Some k →
  changePassword newPassword dbName [] env = (Return (), env)
  ∧ ∀ otherPassword,
      changePassword otherPassword dbName [] env
      = changePassword newPassword dbName [] env.
Proof.
  intros Hkey. unfold changePassword. run. by rewrite Hkey.
Qed.

(** *** Initialisation *)

Lemma initialize_throws password providedSalt env e env' :
  initialize password providedSalt env = (Throw e, env') → e = Error MSG_INITIALIZE.
Proof.
  unfold initialize, saveSecurityParams, openSecurityDb, params_store, getRandomValues.
  run. intros H. repeat case_inner_in H; by simplify_eq.
Qed.

(** C10. Whenever [initialize] completes normally, with a salt passed in
    or not, the record [{ id: "salt" }] of the parameter store holds the
    very salt the installed master key was derived from; a salt stored
    there before is overwritten. *)
Theorem initialize_persists_salt_used (password : string)
    (providedSalt : option Bytes) env env' :
  initialize password providedSalt env = (Return (), env') →
  ∃ baseKey k,
    importKey (TextEncoder_encode password) = Some baseKey
    ∧ deriveKey (salt_used providedSalt (world env)) ITERATIONS baseKey KEY_LENGTH = Some k
    ∧ masterKey (this env') = Some k
    ∧ persisted_salt (world env') = Some (salt_used providedSalt (world env)).
Proof.
  unfold initialize, saveSecurityParams, openSecurityDb, params_store, getRandomValues.
  unfold persisted_salt, salt_used.
  run. intros H. repeat case_inner_in H; simplify_eq; simpl.
  all: eexists _, _; (split_and!; [done..|]); by rewrite lookup_insert_eq.
Qed.

(** The constructor: when the promise it stores fulfils, the persisted
    salt is the salt of the installed key. *)
Lemma new_SecureStorage_persists_salt_used password providedSalt w :
  let env := new_SecureStorage password providedSalt w in
  ready (this env) = Fulfilled →
  ∃ baseKey k,
    importKey (TextEncoder_encode password) = Some baseKey
    ∧ deriveKey (salt_used providedSalt w) ITERATIONS baseKey KEY_LENGTH = Some k
    ∧ masterKey (this env) = Some k
    ∧ persisted_salt (world env) = Some (salt_used providedSalt w).
Proof.
  unfold new_SecureStorage, initialize, saveSecurityParams, openSecurityDb,
    params_store, getRandomValues.
  unfold persisted_salt, salt_used.
  run. repeat case_inner; intros Hready; simplify_eq; simpl.
  all: eexists _, _; (split_and!; [done..|]); by rewrite lookup_insert_eq.
Qed.

(** Without a salt passed in, the outcome of [initialize] and the key it
    installs are the same whatever the parameter store holds: the
    persisted salt is not read. *)
Lemma initialize_never_reads_persisted_salt password env params :
  let env' := {| this := this env; world := set_securityDb params (world env) |} in
  fst (initialize password None env') = fst (initialize password None env)
  ∧ masterKey (this (snd (initialize password None env')))
    = masterKey (this (snd (initialize password None env))).
Proof.
  unfold initialize, saveSecurityParams, openSecurityDb, params_store, getRandomValues,
    random_block.
  run. split; repeat case_inner; simplify_eq; done.
Qed.

(** *** Sequencing and loops *)

Lemma bind_returns {A B : Type} (m : Async A) (f : A → Async B) env b env' :
  (m ≫= f) env = (Return b, env') →
  ∃ a env1, m env = (Return a, env1) ∧ f a env1 = (Return b, env').
Proof.
  unfold mbind, Async_bind. destruct (m env) as [[a|e] env1]; [|done].
  intros H. by exists a, env1.
Qed.

Lemma for_of_app {A : Type} (xs ys : list A) (body : A → Async unit) env :
  for_of (xs ++ ys) body env
  = match for_of xs body env with
    | (Return _, env1) => for_of ys body env1
    | (Throw e, env1) => (Throw e, env1)
    end.
Proof.
  revert env. induction xs as [|x xs IH]; intros env; simpl; [done|].
  run. destruct (body x env) as [[[]|e] env1]; [apply IH | done].
Qed.

Lemma for_of_throws_app {A : Type} (xs ys : list A) (body : A → Async unit) env e env1 :
  for_of xs body env = (Throw e, env1) →
  for_of (xs ++ ys) body env = (Throw e, env1).
Proof. intros H. by rewrite for_of_app, H. Qed.

(** *** Password change: failures *)

(** C3, as the code has it. When the rotation over a list of stores
    fails, the stores that follow in the list play no part: appending
    any stores to the list gives the same outcome and the same final
    state, so none of them is opened, read or rewritten.  The caller
    sees the one error "Impossible de changer le mot de passe". *)
Theorem changePassword_stops_at_first_failure (newPassword dbName : string)
    (storeNames following : list string) env (k : CryptoKey) e :
  masterKey (this env) = Some k →
  fst (changePassword newPassword dbName storeNames env) = Throw e →
  e = Error MSG_CHANGE_PASSWORD
  ∧ changePassword newPassword dbName (storeNames ++ following) env
    = changePassword newPassword dbName storeNames env.
Proof.
  intros Hkey. unfold changePassword. run. rewrite Hkey.
  destruct (for_of storeNames _ env) as [[[]|e0] env1] eqn:Hloop; simpl.
  - done.
  - intros [= <-]. split; [done|].
    by rewrite (for_of_throws_app _ following _ _ _ _ Hloop).
Qed.

(** *** Password change: the key that seals *)

(** One turn of the inner loop of [changePassword] that completes: the
    entry it writes is sealed under the old key, and the old key is
    what the instance holds afterwards. *)
Lemma reencrypt_item_seals_under_old_key (oldKey : CryptoKey) dbName storeName item
    env env' :
  reencrypt_item oldKey dbName storeName item env = (Return (), env') →
  masterKey (this env') = Some oldKey
  ∧ ∃ written plaintext,
      entries (world env') dbName storeName ≫= objectStore_lookup (key item)
      = Some written
      ∧ encryptedData written = aes_gcm_encrypt oldKey (iv written) plaintext.
Proof.
  unfold reencrypt_item, storeEncrypted, encrypt, decrypt, subtle_decrypt,
    openDatabase, objectStore, Date_getTime, put_item, getRandomValues, entries.
  run. intros H. repeat case_inner_in H; simplify_eq; simpl.
  all: split; [done|].
  all: eexists _, _; split;
    [rewrite lookup_insert_eq; simpl; rewrite lookup_insert_eq; simpl;
     apply (objectStore_lookup_put {| key := key item |})
    |reflexivity].
Qed.

Lemma for_of_reencrypt_keeps_old_key (oldKey : CryptoKey) dbName storeName items
    env env' :
  items ≠ [] →
  for_of items (reencrypt_item oldKey dbName storeName) env = (Return (), env') →
  masterKey (this env') = Some oldKey.
Proof.
  revert env. induction items as [|item items IH]; intros env Hne; [done|].
  simpl. run.
  destruct (reencrypt_item oldKey dbName storeName item env) as [[[]|e] env1] eqn:Hitem;
    [|done].
  destruct items as [|next items].
  - simpl. run. intros [= <-].
    by apply reencrypt_item_seals_under_old_key in Hitem as [? _].
  - by apply IH.
Qed.

Lemma objectStore_after_openDatabase dbName storeName items env env1 store env2 :
  entries (world env) dbName storeName = Some items →
  openDatabase dbName storeName env = (Return (), env1) →
  objectStore dbName storeName env1 = (Return store, env2) →
  store = items.
Proof.
  unfold entries, openDatabase, objectStore. run. intros Hitems Hopen Hstore.
  destruct (databases (world env) !! dbName) as [db|] eqn:Hdb; [|done].
  repeat case_inner_in Hopen; simplify_eq. simpl in *.
  rewrite Hdb in Hstore. simpl in *. rewrite Hitems in Hstore. by simplify_eq.
Qed.

(** A rotation of one store that holds at least one entry and completes
    leaves the instance with the key it had before the call. *)
Lemma changePassword_keeps_old_key (oldKey : CryptoKey) newPassword dbName storeName
    first others env env' :
  masterKey (this env) = Some oldKey →
  entries (world env) dbName storeName = Some (first :: others) →
  changePassword newPassword dbName [storeName] env = (Return (), env') →
  masterKey (this env') = Some oldKey.
Proof.
  intros Hkey Hentries. unfold changePassword, get_masterKey, try_catch.
  unfold mbind at 1, Async_bind at 1. rewrite Hkey.
  destruct (for_of [storeName] _ env) as [[[]|e] env1] eqn:Hloop; [|done].
  intros [= <-]. simpl in Hloop.
  apply bind_returns in Hloop as ([] & env2 & Hstore & [= <-]).
  unfold reencrypt_store in Hstore.
  apply bind_returns in Hstore as ([] & env3 & Hopen & Hstore).
  apply bind_returns in Hstore as (store & env4 & Hread & Hstore).
  apply bind_returns in Hstore as ([] & env5 & _ & Hitems).
  rewrite (objectStore_after_openDatabase _ _ _ _ _ _ _ Hentries Hopen Hread) in Hitems.
  cbn [result] in Hitems. eapply for_of_reencrypt_keeps_old_key; [|exact Hitems]. done.
Qed.

(** *** Retrieval *)

(** [retrieveDecrypted] never returns: what it awaits is the request
    object, so the absent-entry branch is never taken and [decrypt] is
    handed two [undefined] arguments. *)
Lemma retrieveDecrypted_throws (dbName storeName k : string) env :
  fst (retrieveDecrypted dbName storeName k env) = Throw (Error MSG_RETRIEVE).
Proof.
  unfold retrieveDecrypted, openDatabase, objectStore, await_request, decrypt,
    subtle_decrypt, truthy_object, undefined_property.
  run. repeat case_inner; done.
Qed.

(** *** What the caller sees of a failure *)

Lemma encrypt_throws data env e env' :
  encrypt data env = (Throw e, env') →
  ready (this env) = Rejected e
  ∨ e = Error MSG_KEY_NOT_INITIALIZED
  ∨ e = Error MSG_ENCRYPT.
Proof.
  unfold encrypt, getRandomValues. run. intros H.
  repeat case_inner_in H; simplify_eq; auto.
Qed.

Lemma decrypt_throws encrypted nonce env e env' :
  decrypt encrypted nonce env = (Throw e, env') →
  ready (this env) = Rejected e
  ∨ e = Error MSG_KEY_NOT_INITIALIZED
  ∨ e = Error MSG_DECRYPT.
Proof.
  unfold decrypt, subtle_decrypt. run. intros H.
  repeat case_inner_in H; simplify_eq; auto.
Qed.

Lemma storeEncrypted_throws dbName storeName k data env e env' :
  storeEncrypted dbName storeName k data env = (Throw e, env') →
  e = Error MSG_STORE.
Proof.
  unfold storeEncrypted. run.
  destruct (encrypt data env) as [[[??]|?] ?]; simpl.
  - unfold openDatabase, objectStore, Date_getTime, put_item. run. intros H.
    repeat case_inner_in H; by simplify_eq.
  - by intros [= <- <-].
Qed.

Lemma changePassword_throws newPassword dbName storeNames env e env' :
  changePassword newPassword dbName storeNames env = (Throw e, env') →
  e = Error MSG_CURRENT_KEY ∨ e = Error MSG_CHANGE_PASSWORD.
Proof.
  unfold changePassword. run.
  destruct (masterKey (this env)); simpl; [|intros [= <- <-]; auto].
  destruct (for_of storeNames _ env) as [[[]|?] ?]; simpl; [done|].
  intros [= <- <-]; auto.
Qed.

Lemma getSecurityParams_returns env :
  fst (getSecurityParams env) = Return None.
Proof.
  unfold getSecurityParams, openSecurityDb, params_store, await_request,
    undefined_property.
  run. repeat case_inner; done.
Qed.

(** The two ways decryption goes wrong end in the same error. *)
Lemma decrypt_wrong_key_or_tampered (k : CryptoKey) encrypted nonce env :
  ready (this env) = Fulfilled →
  masterKey (this env) = Some k →
  aes_gcm_decrypt k nonce encrypted = None →
  fst (decrypt (Some encrypted) (Some nonce) env) = Throw (Error MSG_DECRYPT).
Proof.
  intros Hready Hkey Hopen. unfold decrypt, subtle_decrypt. run.
  rewrite Hready; simpl. by rewrite Hkey, Hopen.
Qed.

Lemma decrypt_malformed_payload (k : CryptoKey) encrypted nonce plaintext env :
  ready (this env) = Fulfilled →
  masterKey (this env) = Some k →
  aes_gcm_decrypt k nonce encrypted = Some plaintext →
  JSON_parse (TextDecoder_decode plaintext) = None →
  fst (decrypt (Some encrypted) (Some nonce) env) = Throw (Error MSG_DECRYPT).
Proof.
  intros Hready Hkey Hopen Hparse. unfold decrypt, subtle_decrypt. run.
  rewrite Hready; simpl. by rewrite Hkey, Hopen; simpl; rewrite Hparse.
Qed.

Lemma encrypt_unserializable (k : CryptoKey) data env :
  ready (this env) = Fulfilled →
  masterKey (this env) = Some k →
  JSON_stringify data = None →
  fst (encrypt data env) = Throw (Error MSG_ENCRYPT).
Proof.
  intros Hready Hkey Hjson. unfold encrypt. run.
  rewrite Hready; simpl. by rewrite Hkey, Hjson.
Qed.

Lemma initialize_derivation_failure password providedSalt env :
  (∀ baseKey, importKey (TextEncoder_encode password) = Some baseKey →
     deriveKey (salt_used providedSalt (world env)) ITERATIONS baseKey KEY_LENGTH = None) →
  fst (initialize password providedSalt env) = Throw (Error MSG_INITIALIZE).
Proof.
  intros Hderive. unfold initialize, getRandomValues. run.
  destruct (importKey (TextEncoder_encode password)) as [baseKey|] eqn:Himport.
  - specialize (Hderive baseKey eq_refl).
    destruct providedSalt; simpl in *; by rewrite Hderive.
  - by destruct providedSalt.
Qed.

Lemma initialize_save_failure password providedSalt env :
  "SecureStorageParams" ∈ unavailable (world env) →
  fst (initialize password providedSalt env) = Throw (Error MSG_INITIALIZE).
Proof.
  intros Hdown.
  destruct (initialize password providedSalt env) as [[[]|e] env'] eqn:Hrun; simpl.
  - exfalso. revert Hrun.
    unfold initialize, saveSecurityParams, openSecurityDb, params_store, getRandomValues.
    run. intros H. repeat case_inner_in H; simplify_eq; simpl in *; done.
  - f_equal. by eapply initialize_throws.
Qed.

Lemma storeEncrypted_database_failure dbName storeName k data env :
  dbName ∈ unavailable (world env) →
  fst (storeEncrypted dbName storeName k data env) = Throw (Error MSG_STORE).
Proof.
  intros Hdown.
  destruct (storeEncrypted dbName storeName k data env) as [[[]|e] env'] eqn:Hrun; simpl.
  - exfalso. revert Hrun. unfold storeEncrypted. run.
    destruct (encrypt data env) as [[[??]|?] env1] eqn:Hencrypt; simpl; [|done].
    assert (unavailable (world env1) = unavailable (world env)) as Hsame.
    { revert Hencrypt. unfold encrypt, getRandomValues. run. intros H.
      repeat case_inner_in H; by simplify_eq. }
    unfold openDatabase. run. rewrite decide_True by by rewrite Hsame. done.
  - f_equal. by eapply storeEncrypted_throws.
Qed.

Lemma getSecurityParams_never_throws env :
  ∃ found, fst (getSecurityParams env) = Return found.
Proof. eexists. apply getSecurityParams_returns. Qed.

Lemma retrieveDecrypted_error dbName storeName k env e env' :
  retrieveDecrypted dbName storeName k env = (Throw e, env') → e = Error MSG_RETRIEVE.
Proof.
  intros Hrun. pose proof (retrieveDecrypted_throws dbName storeName k env) as Hthrows.
  rewrite Hrun in Hthrows. by simplify_eq/=.
Qed.

(** *** Sealing and opening *)

(** C4. Under an installed master key, [encrypt] returns for every
    value [JSON.stringify] accepts, and [decrypt] applied to the buffer
    and the nonce it returned, by the same instance, returns that value:
    encode, seal, open and decode compose to the identity. *)
Theorem decrypt_encrypt_roundtrip `{!PlatformLaws P} (v : Payload) (k : CryptoKey) env :
  ready (this env) = Fulfilled →
  masterKey (this env) = Some k →
  is_Some (JSON_stringify v) →
  ∃ encrypted nonce env',
    encrypt v env = (Return (encrypted, nonce), env')
    ∧ this env' = this env
    ∧ ∀ env'', this env'' = this env →
        decrypt (Some encrypted) (Some nonce) env'' = (Return v, env'').
Proof.
  intros Hready Hkey [s Hs].
  eexists _, _, _. split_and!.
  - unfold encrypt, getRandomValues. run.
    rewrite Hready; simpl. rewrite Hkey, Hs; simpl. done.
  - done.
  - intros [this'' w''] Hthis. simpl in Hthis. subst this''.
    unfold decrypt, subtle_decrypt. run.
    rewrite Hready; simpl. rewrite Hkey, aes_gcm_correct; simpl.
    by rewrite (utf8_correct v s Hs), (JSON_correct v s Hs).
Qed.

(** What one successful [encrypt] returns and leaves behind: the nonce
    is the next [IV_LENGTH] bytes of the random source, which are then
    spent. *)
Lemma encrypt_returns (v : Payload) (s : string) (k : CryptoKey) env :
  ready (this env) = Fulfilled →
  masterKey (this env) = Some k →
  JSON_stringify v = Some s →
  let nonce := random_block (world env) (drawn (world env)) IV_LENGTH in
  encrypt v env
  = (Return (aes_gcm_encrypt k nonce (TextEncoder_encode s), nonce),
     {| this := this env;
        world := set_drawn (drawn (world env) + IV_LENGTH) (world env) |}).
Proof.
  intros Hready Hkey Hs. unfold encrypt, getRandomValues. run.
  rewrite Hready; simpl. by rewrite Hkey, Hs.
Qed.

Lemma length_random_block w from n : length (random_block w from n) = n.
Proof. unfold random_block. by rewrite length_map, length_seq. Qed.

Lemma nonce_blocks_S w n :
  nonce_blocks w (S n)
  = random_block w (drawn w) IV_LENGTH
    :: nonce_blocks (set_drawn (drawn w + IV_LENGTH) w) n.
Proof.
  unfold nonce_blocks. simpl seq. rewrite <- seq_shift, map_cons, map_map.
  f_equal.
  - f_equal. lia.
  - apply map_ext. intros i. unfold random_block, set_drawn. cbn [entropy drawn].
    do 2 f_equal. lia.
Qed.

Lemma NoDup_fmap_snd {A B : Type} (l : list (A * B)) : NoDup l.*2 → NoDup l.
Proof.
  induction l as [|[a b] l IH]; simpl; [constructor|].
  intros [Hb Hl]%NoDup_cons. apply NoDup_cons. split; [|auto].
  intros Hin. apply Hb. apply list_elem_of_fmap. by exists (a, b).
Qed.

(** C5. [encrypt] called [N] times under one key returns [N] nonces
    that are the [N] successive, non-overlapping blocks of 12 bytes
    of [crypto.getRandomValues]: each call draws its own block, none is
    kept for a later call, and none depends on the data or the key.
    So when the random source does not repeat a block, the nonces are
    pairwise distinct and so are the (ciphertext, nonce) pairs, also for
    equal plaintexts. *)
Theorem encrypt_calls_fresh_nonces (datas : list Payload) (k : CryptoKey) env :
  ready (this env) = Fulfilled →
  masterKey (this env) = Some k →
  Forall (λ v, is_Some (JSON_stringify v)) datas →
  ∃ sealed env',
    encrypt_calls datas env = (Return sealed, env')
    ∧ sealed.*2 = nonce_blocks (world env) (length datas)
    ∧ Forall (λ nonce, length nonce = IV_LENGTH) sealed.*2
    ∧ (NoDup (nonce_blocks (world env) (length datas)) →
       NoDup sealed.*2 ∧ NoDup sealed).
Proof.
  intros Hready Hkey Hdatas.
  assert (∃ sealed env',
    encrypt_calls datas env = (Return sealed, env')
    ∧ sealed.*2 = nonce_blocks (world env) (length datas)) as (sealed & env' & Hrun & Hnonces).
  { revert env Hready Hkey.
    induction Hdatas as [|v datas [s Hs] _ IH]; intros env Hready Hkey.
    - by eexists [], env.
    - pose proof (encrypt_returns v s k env Hready Hkey Hs) as Hone. simpl in Hone.
      set (env1 := {| this := this env;
                      world := set_drawn (drawn (world env) + IV_LENGTH) (world env) |}).
      destruct (IH env1) as (sealed & env' & Hrest & Hnonces); [done..|].
      eexists (_ :: sealed), env'. split.
      + simpl. run. rewrite Hone. simpl. fold env1. by rewrite Hrest.
      + simpl length. by rewrite nonce_blocks_S, fmap_cons, Hnonces. }
  exists sealed, env'. split_and!; [done..| |].
  - rewrite Hnonces. unfold nonce_blocks. apply Forall_forall.
    intros nonce (i & -> & _)%list_elem_of_fmap. apply length_random_block.
  - intros Hfresh. rewrite Hnonces. split; [done|].
    apply NoDup_fmap_snd. by rewrite Hnonces.
Qed.

End Properties.

(** ** Further properties of the methods

    What the remaining code does: [storeEncrypted], [openDatabase] and
    the constructor, and how the methods compose. *)

Section Coverage.
Context `{P : WebPlatform}.

Implicit Types (env : Env) (w : World) (e : Exn).

(** *** Object stores *)

Lemma objectStore_lookup_put_ne item store k :
  k ≠ key item →
  objectStore_lookup k (objectStore_put item store) = objectStore_lookup k store.
Proof.
  intros Hne. induction store as [|x store IH]; simpl.
  - by rewrite decide_False.
  - destruct (String.compare (key item) (key x)) eqn:Hcmp; simpl.
    + apply String.compare_eq_iff in Hcmp.
      rewrite !decide_False by congruence. done.
    + by rewrite decide_False.
    + by rewrite IH.
Qed.

(** *** Writing an entry *)

(** What a completed [storeEncrypted] has done: either the database was
    new and now holds the one store with the one entry, or the store
    was there and the entry was put into it. *)
Lemma storeEncrypted_returns dbName storeName k data env env' :
  storeEncrypted dbName storeName k data env = (Return (), env') →
  ∃ (current : CryptoKey) jsonString,
    ready (this env) = Fulfilled
    ∧ masterKey (this env) = Some current
    ∧ JSON_stringify data = Some jsonString
    ∧ (dbName ∉ unavailable (world env))
    ∧ this env' = this env
    ∧ securityDb (world env') = securityDb (world env)
    ∧ ((databases (world env) !! dbName = None
        ∧ databases (world env')
          = <[dbName := {[ storeName := [entry_written current k jsonString env] ]}]>
              (databases (world env)))
       ∨ (∃ db store,
            databases (world env) !! dbName = Some db
            ∧ db !! storeName = Some store
            ∧ databases (world env')
              = <[dbName := <[storeName :=
                    objectStore_put (entry_written current k jsonString env) store]> db]>
                  (databases (world env)))).
Proof.
  unfold storeEncrypted, encrypt, openDatabase, objectStore, Date_getTime, put_item,
    getRandomValues, entry_written.
  run. intros H. repeat case_inner_in H; simplify_eq; simpl in *.
  all: eexists _, _; split_and!; try done.
  - right. by eexists _, _.
  - left. split; [done|].
    rewrite lookup_insert_eq in *. simplify_eq.
    rewrite lookup_singleton_eq in *. simplify_eq. simpl.
    by rewrite insert_insert_eq, insert_singleton_eq.
Qed.

(** X1. A value written by [storeEncrypted] is read back by [decrypt]
    from the entry now stored under its key: with the key installed,
    the database one of the application's (not the parameter database
    of the class), reachable, and the store present (or the database
    new), [storeEncrypted] returns, the entry under the key is the one
    just sealed, and the same instance decrypts it to the value. *)
Theorem storeEncrypted_then_decrypt `{!PlatformLaws P} (dbName storeName k : string)
    (data : Payload) (current : CryptoKey) env :
  ready (this env) = Fulfilled →
  masterKey (this env) = Some current →
  is_Some (JSON_stringify data) →
  dbName ≠ "SecureStorageParams" →
  dbName ∉ unavailable (world env) →
  is_Some (entries (world env) dbName storeName)
  ∨ databases (world env) !! dbName = None →
  ∃ env' jsonString,
    JSON_stringify data = Some jsonString
    ∧ storeEncrypted dbName storeName k data env = (Return (), env')
    ∧ this env' = this env
    ∧ entries (world env') dbName storeName ≫= objectStore_lookup k
      = Some (entry_written current k jsonString env)
    ∧ fst (decrypt (Some (encryptedData (entry_written current k jsonString env)))
             (Some (iv (entry_written current k jsonString env))) env')
      = Return data.
Proof.
  intros Hready Hkey [s Hs] _ Hup Hstore.
  pose proof (encrypt_returns data s current env Hready Hkey Hs) as Hencrypt.
  simpl in Hencrypt.
  assert (∃ env',
    storeEncrypted dbName storeName k data env = (Return (), env')
    ∧ this env' = this env
    ∧ entries (world env') dbName storeName ≫= objectStore_lookup k
      = Some (entry_written current k s env)) as (env' & Hrun & Hthis & Hentry).
  { unfold storeEncrypted. run. rewrite Hencrypt. simpl.
    unfold openDatabase, objectStore, Date_getTime, put_item, entries in *. run.
    rewrite decide_False by done.
    destruct Hstore as [[store Hstore]|Hnew].
    - destruct (databases (world env) !! dbName) as [db|] eqn:Hdb; [|done].
      simpl in *. repeat (progress (rewrite ?Hdb, ?Hstore; simpl)).
      eexists. split_and!; [done..|]. simpl.
      rewrite lookup_insert_eq. simpl. rewrite lookup_insert_eq. simpl.
      apply (objectStore_lookup_put (entry_written current k s env)).
    - rewrite Hnew. simpl.
      repeat (progress (rewrite ?lookup_insert_eq, ?lookup_singleton_eq; simpl)).
      eexists. split_and!; [done..|]. simpl.
      rewrite lookup_insert_eq. simpl. rewrite lookup_insert_eq. simpl.
      unfold entry_written. simpl. by rewrite decide_True. }
  exists env', s. split_and!; [done..|].
  destruct env' as [this' w']. simpl in Hthis. subst this'.
  unfold decrypt, subtle_decrypt, entry_written. run.
  rewrite Hready; simpl. rewrite Hkey, aes_gcm_correct; simpl.
  by rewrite (utf8_correct data s Hs), (JSON_correct data s Hs).
Qed.

(** X2. A completed [storeEncrypted] touches one key of one store: the
    instance, the parameter store, the other databases, the other
    stores of the database and the entries under other keys of the
    store are as before. *)
Theorem storeEncrypted_keeps_the_rest (dbName storeName k : string) (data : Payload)
    env env' :
  storeEncrypted dbName storeName k data env = (Return (), env') →
  this env' = this env
  ∧ securityDb (world env') = securityDb (world env)
  ∧ (∀ otherDb, otherDb ≠ dbName →
       databases (world env') !! otherDb = databases (world env) !! otherDb)
  ∧ (∀ otherStore, otherStore ≠ storeName →
       entries (world env') dbName otherStore = entries (world env) dbName otherStore)
  ∧ (∀ otherKey, otherKey ≠ k →
       entries (world env') dbName storeName ≫= objectStore_lookup otherKey
       = entries (world env) dbName storeName ≫= objectStore_lookup otherKey).
Proof.
  intros Hrun.
  apply storeEncrypted_returns in Hrun
    as (current & s & _ & _ & _ & _ & Hthis & Hparams & Hwritten).
  split_and!; [done..| | |].
  - intros otherDb Hne.
    destruct Hwritten as [[_ ->]|(db & store & _ & _ & ->)];
      by rewrite lookup_insert_ne.
  - intros otherStore Hne. unfold entries.
    destruct Hwritten as [[Hnew ->]|(db & store & Hdb & _ & ->)];
      rewrite lookup_insert_eq; simpl.
    + rewrite Hnew. simpl. by rewrite lookup_singleton_ne.
    + rewrite Hdb. simpl. by rewrite lookup_insert_ne.
  - intros otherKey Hne. unfold entries.
    destruct Hwritten as [[Hnew ->]|(db & store & Hdb & Hstore & ->)];
      rewrite lookup_insert_eq; simpl.
    + rewrite Hnew, lookup_singleton_eq. simpl. by rewrite decide_False.
    + rewrite Hdb, lookup_insert_eq. simpl. rewrite Hstore. simpl.
      by apply objectStore_lookup_put_ne.
Qed.

(** X3. A [storeEncrypted] that throws has written nothing: the
    databases, the parameter store and the instance are as before. *)
Theorem storeEncrypted_failure_writes_nothing (dbName storeName k : string)
    (data : Payload) env e env' :
  storeEncrypted dbName storeName k data env = (Throw e, env') →
  this env' = this env
  ∧ databases (world env') = databases (world env)
  ∧ securityDb (world env') = securityDb (world env).
Proof.
  unfold storeEncrypted, encrypt, openDatabase, objectStore, Date_getTime, put_item,
    getRandomValues.
  run. intros H.
  repeat (case_inner_in H; rewrite ?lookup_insert_eq in *; simplify_eq/=;
          rewrite ?lookup_singleton_eq in *; simplify_eq/=); done.
Qed.

(** A store the database does not have makes [storeEncrypted] throw. *)
Lemma storeEncrypted_missing_store (dbName storeName k : string) (data : Payload)
    env db :
  databases (world env) !! dbName = Some db →
  db !! storeName = None →
  fst (storeEncrypted dbName storeName k data env) = Throw (Error MSG_STORE).
Proof.
  intros Hdb Hstore.
  destruct (storeEncrypted dbName storeName k data env) as [[[]|e] env'] eqn:Hrun; simpl.
  - apply storeEncrypted_returns in Hrun
      as (current & s & _ & _ & _ & _ & _ & _ & [[Hnew _]|(db' & store & Hdb' & Hstore' & _)]);
      congruence.
  - f_equal. by eapply storeEncrypted_throws.
Qed.

(** X4. The first write to a database that does not exist creates it
    with the one store written to, holding the one entry; the upgrade
    handler does not run again, so every later write to another store
    of that database throws. *)
Theorem storeEncrypted_creates_one_store (dbName storeName k : string) (data : Payload)
    env env' :
  databases (world env) !! dbName = None →
  storeEncrypted dbName storeName k data env = (Return (), env') →
  (∃ written,
     key written = k
     ∧ databases (world env') !! dbName = Some {[ storeName := [written] ]})
  ∧ ∀ otherStore k' (data' : Payload),
      otherStore ≠ storeName →
      fst (storeEncrypted dbName otherStore k' data' env') = Throw (Error MSG_STORE).
Proof.
  intros Hnew Hrun.
  apply storeEncrypted_returns in Hrun
    as (current & s & _ & _ & _ & _ & _ & _ & [[_ Hdbs]|(db & store & Hdb & _)]);
    [|congruence].
  assert (databases (world env') !! dbName
          = Some {[ storeName := [entry_written current k s env] ]}) as Hdb
    by by rewrite Hdbs, lookup_insert_eq.
  split; [by eexists (entry_written current k s env)|].
  intros otherStore k' data' Hne.
  eapply storeEncrypted_missing_store; [done|]. by rewrite lookup_singleton_ne.
Qed.

(** *** What the methods leave alone *)

(** X5. [encrypt] and [decrypt] touch neither IndexedDB nor the
    instance, whatever their outcome, and [decrypt] draws no random
    bytes; [retrieveDecrypted] leaves the instance, the parameter store
    and the entries of every existing store as they are (it can only
    create the database it was asked for, when there is none). *)
Theorem reading_writes_nothing :
  (∀ (data : Payload) env,
     let env' := snd (encrypt data env) in
     this env' = this env
     ∧ databases (world env') = databases (world env)
     ∧ securityDb (world env') = securityDb (world env))
  ∧ (∀ encrypted nonce env,
       let env' := snd (decrypt encrypted nonce env) in
       this env' = this env
       ∧ databases (world env') = databases (world env)
       ∧ securityDb (world env') = securityDb (world env)
       ∧ drawn (world env') = drawn (world env))
  ∧ (∀ dbName storeName k env,
       let env' := snd (retrieveDecrypted dbName storeName k env) in
       this env' = this env
       ∧ securityDb (world env') = securityDb (world env)
       ∧ (is_Some (databases (world env) !! dbName) →
          databases (world env') = databases (world env))
       ∧ ∀ otherDb otherStore items,
           entries (world env) otherDb otherStore = Some items →
           entries (world env') otherDb otherStore = Some items).
Proof.
  split_and!.
  - intros data env. unfold encrypt, getRandomValues. run.
    repeat case_inner; done.
  - intros encrypted nonce env. unfold decrypt, subtle_decrypt. run.
    repeat case_inner; done.
  - intros dbName storeName k env.
    unfold retrieveDecrypted, openDatabase, objectStore, await_request, decrypt,
      subtle_decrypt, truthy_object, undefined_property, entries.
    run. repeat case_inner; split_and!; try done.
    all: try by intros [??].
    all: intros otherDb otherStore items;
      (destruct (decide (otherDb = dbName)) as [->|Hne];
       [|by rewrite lookup_insert_ne]).
    all: match goal with H : databases _ !! _ = None |- _ => by rewrite H end.
Qed.

(** *** What no method undoes *)

(** A relation between the state before and after that every step of a
    method keeps. *)
Section Preserved.
Variable R : Env → Env → Prop.
Hypothesis R_refl : ∀ env, R env env.
Hypothesis R_trans : ∀ env1 env2 env3, R env1 env2 → R env2 env3 → R env1 env3.

Lemma preserved_bind {A B : Type} (m : Async A) (f : A → Async B) :
  preserved R m → (∀ a, preserved R (f a)) → preserved R (m ≫= f).
Proof using R_trans.
  intros Hm Hf env. specialize (Hm env). unfold mbind, Async_bind.
  destruct (m env) as [[a|e] env1]; simpl in *; [|done].
  eapply R_trans; [done|]. apply Hf.
Qed.

Lemma preserved_try_catch {A : Type} (body : Async A) (handler : Exn → Async A) :
  preserved R body → (∀ e, preserved R (handler e)) → preserved R (try_catch body handler).
Proof using R_trans.
  intros Hbody Hhandler env. specialize (Hbody env). unfold try_catch.
  destruct (body env) as [[a|e] env1]; simpl in *; [done|].
  eapply R_trans; [done|]. apply Hhandler.
Qed.

Lemma preserved_for_of {A : Type} (xs : list A) (body : A → Async unit) :
  (∀ x, preserved R (body x)) → preserved R (for_of xs body).
Proof using R_refl R_trans.
  intros Hbody. induction xs as [|x xs IH]; simpl.
  - intros env. apply R_refl.
  - apply preserved_bind; [apply Hbody|]. intros _. apply IH.
Qed.

End Preserved.

Lemma settled_refl env : settled_as_before env env.
Proof. by split. Qed.

Lemma settled_trans env1 env2 env3 :
  settled_as_before env1 env2 → settled_as_before env2 env3 →
  settled_as_before env1 env3.
Proof.
  intros [Hready12 Hkey12] [Hready23 Hkey23]. split; [congruence|auto].
Qed.

Lemma initialize_settled password providedSalt :
  preserved settled_as_before (initialize password providedSalt).
Proof.
  intros env. unfold settled_as_before, initialize, saveSecurityParams, openSecurityDb,
    params_store, getRandomValues.
  run. repeat case_inner; done.
Qed.

Lemma encrypt_settled data : preserved settled_as_before (encrypt data).
Proof.
  intros env. unfold settled_as_before, encrypt, getRandomValues. run.
  repeat case_inner; done.
Qed.

Lemma decrypt_settled encrypted nonce :
  preserved settled_as_before (decrypt encrypted nonce).
Proof.
  intros env. unfold settled_as_before, decrypt, subtle_decrypt. run.
  repeat case_inner; done.
Qed.

Lemma storeEncrypted_settled dbName storeName k data :
  preserved settled_as_before (storeEncrypted dbName storeName k data).
Proof.
  intros env.
  destruct (storeEncrypted dbName storeName k data env) as [[[]|e] env'] eqn:Hrun; simpl.
  - apply storeEncrypted_returns in Hrun
      as (current & s & _ & _ & _ & _ & Hthis & _).
    unfold settled_as_before. by rewrite Hthis.
  - assert (this env' = this env) as Hthis.
    { revert Hrun.
      unfold storeEncrypted, encrypt, openDatabase, objectStore, Date_getTime, put_item,
        getRandomValues.
      run. intros H. repeat case_inner_in H; by simplify_eq. }
    unfold settled_as_before. by rewrite Hthis.
Qed.

Lemma retrieveDecrypted_settled dbName storeName k :
  preserved settled_as_before (retrieveDecrypted dbName storeName k).
Proof.
  intros env.
  unfold settled_as_before, retrieveDecrypted, openDatabase, objectStore, await_request,
    decrypt, subtle_decrypt, truthy_object, undefined_property.
  run. repeat case_inner; done.
Qed.

Lemma reencrypt_item_settled (oldKey : CryptoKey) dbName storeName item :
  preserved settled_as_before (reencrypt_item oldKey dbName storeName item).
Proof.
  unfold reencrypt_item.
  apply preserved_bind; [apply settled_trans| |].
  - intros env. unfold settled_as_before, set_masterKey. simpl. by split.
  - intros _. apply preserved_bind; [apply settled_trans|apply decrypt_settled|].
    intros decryptedData. apply storeEncrypted_settled.
Qed.

Lemma changePassword_settled newPassword dbName storeNames :
  preserved settled_as_before (changePassword newPassword dbName storeNames).
Proof.
  unfold changePassword.
  apply preserved_bind; [apply settled_trans|by intros env|].
  intros [old|]; [|by intros env].
  apply preserved_try_catch; [apply settled_trans| |by intros e env].
  apply preserved_for_of; [apply settled_refl|apply settled_trans|].
  intros storeName. unfold reencrypt_store.
  apply preserved_bind; [apply settled_trans| |].
  { intros env. unfold settled_as_before, openDatabase. run. repeat case_inner; done. }
  intros _. apply preserved_bind; [apply settled_trans| |].
  { intros env. unfold settled_as_before, objectStore. run. repeat case_inner; done. }
  intros store. apply preserved_bind; [apply settled_trans|apply initialize_settled|].
  intros _. apply preserved_for_of; [apply settled_refl|apply settled_trans|].
  apply reencrypt_item_settled.
Qed.

(** X6. No method settles [ready] again and none unsets the master key:
    after [initialize], [encrypt], [decrypt], [storeEncrypted],
    [retrieveDecrypted] or [changePassword], whatever the outcome,
    [ready] is what the constructor left and a key that was installed
    is still installed (possibly another one). *)
Theorem ready_and_key_stay_settled :
  (∀ password providedSalt, preserved settled_as_before (initialize password providedSalt))
  ∧ (∀ data, preserved settled_as_before (encrypt data))
  ∧ (∀ encrypted nonce, preserved settled_as_before (decrypt encrypted nonce))
  ∧ (∀ dbName storeName k data,
       preserved settled_as_before (storeEncrypted dbName storeName k data))
  ∧ (∀ dbName storeName k,
       preserved settled_as_before (retrieveDecrypted dbName storeName k))
  ∧ (∀ newPassword dbName storeNames,
       preserved settled_as_before (changePassword newPassword dbName storeNames)).
Proof.
  split_and!.
  - apply initialize_settled.
  - apply encrypt_settled.
  - apply decrypt_settled.
  - apply storeEncrypted_settled.
  - apply retrieveDecrypted_settled.
  - apply changePassword_settled.
Qed.

(** *** The constructor and the salt store *)

(** [initialize] when the key can be derived and the salt saved. *)
Lemma initialize_completes password providedSalt env baseKey (k : CryptoKey) :
  "SecureStorageParams" ∉ unavailable (world env) →
  importKey (TextEncoder_encode password) = Some baseKey →
  deriveKey (salt_used providedSalt (world env)) ITERATIONS baseKey KEY_LENGTH = Some k →
  ∃ env',
    initialize password providedSalt env = (Return (), env')
    ∧ masterKey (this env') = Some k
    ∧ ready (this env') = ready (this env)
    ∧ databases (world env') = databases (world env)
    ∧ unavailable (world env') = unavailable (world env)
    ∧ persisted_salt (world env') = Some (salt_used providedSalt (world env)).
Proof.
  intros Hup Himport Hderive.
  unfold initialize, saveSecurityParams, openSecurityDb, params_store, getRandomValues,
    persisted_salt, salt_used in *.
  run. destruct providedSalt as [provided|]; simpl in *.
  all: rewrite Himport; simpl; rewrite Hderive; simpl.
  all: rewrite decide_False by done.
  all: destruct (securityDb (world env)) as [params|] eqn:Hparams; simpl.
  all: rewrite ?Hparams; simpl.
  all: eexists; split_and!; try done; simpl; by rewrite lookup_insert_eq.
Qed.

(** [initialize] when the key can be derived and the salt cannot be
    saved: the key is installed all the same. *)
Lemma initialize_salt_not_saved password providedSalt env baseKey (k : CryptoKey) :
  "SecureStorageParams" ∈ unavailable (world env) →
  importKey (TextEncoder_encode password) = Some baseKey →
  deriveKey (salt_used providedSalt (world env)) ITERATIONS baseKey KEY_LENGTH = Some k →
  ∃ env',
    initialize password providedSalt env = (Throw (Error MSG_INITIALIZE), env')
    ∧ masterKey (this env') = Some k
    ∧ ready (this env') = ready (this env)
    ∧ databases (world env') = databases (world env)
    ∧ securityDb (world env') = securityDb (world env).
Proof.
  intros Hdown Himport Hderive.
  unfold initialize, saveSecurityParams, openSecurityDb, params_store, getRandomValues,
    salt_used in *.
  run. destruct providedSalt as [provided|]; simpl in *.
  all: rewrite Himport; simpl; rewrite Hderive; simpl.
  all: rewrite decide_True by done.
  all: by eexists.
Qed.

(** X7. When the salt cannot be saved the constructor's promise
    rejects although the key is derived and installed; from then on
    [encrypt] and [decrypt] rethrow the rejection, whatever their
    arguments, and [storeEncrypted] throws its own error. *)
Theorem construction_rejected_when_salt_not_saved (password : string)
    (providedSalt : option Bytes) w baseKey (k : CryptoKey) :
  "SecureStorageParams" ∈ unavailable w →
  importKey (TextEncoder_encode password) = Some baseKey →
  deriveKey (salt_used providedSalt w) ITERATIONS baseKey KEY_LENGTH = Some k →
  let env := new_SecureStorage password providedSalt w in
  ready (this env) = Rejected (Error MSG_INITIALIZE)
  ∧ masterKey (this env) = Some k
  ∧ securityDb (world env) = securityDb w
  ∧ (∀ data, fst (encrypt data env) = Throw (Error MSG_INITIALIZE))
  ∧ (∀ encrypted nonce, fst (decrypt encrypted nonce env) = Throw (Error MSG_INITIALIZE))
  ∧ (∀ dbName storeName key data,
       fst (storeEncrypted dbName storeName key data env) = Throw (Error MSG_STORE)).
Proof.
  intros Hdown Himport Hderive env.
  destruct (initialize_salt_not_saved password providedSalt
              {| this := {| masterKey := None; ready := Fulfilled |}; world := w |}
              baseKey k Hdown Himport Hderive)
    as (env1 & Hrun & Hkey & _ & _ & Hparams).
  assert (ready (this env) = Rejected (Error MSG_INITIALIZE)) as Hready
    by (subst env; unfold new_SecureStorage; by rewrite Hrun).
  assert (∀ data, fst (encrypt data env) = Throw (Error MSG_INITIALIZE)) as Hencrypt.
  { intros data. unfold encrypt. run. by rewrite Hready. }
  split_and!.
  - done.
  - subst env. unfold new_SecureStorage. by rewrite Hrun.
  - subst env. unfold new_SecureStorage. by rewrite Hrun.
  - done.
  - intros encrypted nonce. unfold decrypt. run. by rewrite Hready.
  - intros dbName storeName key data. specialize (Hencrypt data).
    unfold storeEncrypted. run.
    by destruct (encrypt data env) as [[[??]|?] ?]; simplify_eq/=.
Qed.

(** X8. What the awaited salt read returns: [getSecurityParams] gives
    [null] and changes nothing also when a salt is persisted and the
    parameter database opens. *)
Theorem getSecurityParams_misses_persisted_salt (persisted : Bytes) env :
  "SecureStorageParams" ∉ unavailable (world env) →
  persisted_salt (world env) = Some persisted →
  getSecurityParams env = (Return None, env).
Proof.
  intros Hup Hsalt.
  unfold getSecurityParams, openSecurityDb, params_store, await_request,
    undefined_property, persisted_salt in *.
  run. rewrite decide_False by done.
  destruct (securityDb (world env)) as [params|] eqn:Hparams; [|done].
  simpl. by rewrite Hparams.
Qed.

(** *** Password change: the other outcomes *)

Lemma bind_runs {A B : Type} (m : Async A) (f : A → Async B) env a env1 :
  m env = (Return a, env1) → (m ≫= f) env = f a env1.
Proof. intros H. unfold mbind, Async_bind. by rewrite H. Qed.

Lemma bind_throws {A B : Type} (m : Async A) (f : A → Async B) env e env1 :
  m env = (Throw e, env1) → (m ≫= f) env = (Throw e, env1).
Proof. intros H. unfold mbind, Async_bind. by rewrite H. Qed.

Lemma openDatabase_existing dbName storeName env db :
  dbName ∉ unavailable (world env) →
  databases (world env) !! dbName = Some db →
  openDatabase dbName storeName env = (Return (), env).
Proof.
  intros Hup Hdb. unfold openDatabase. run.
  rewrite decide_False by done. by rewrite Hdb.
Qed.

Lemma openDatabase_new dbName storeName env :
  dbName ∉ unavailable (world env) →
  databases (world env) !! dbName = None →
  openDatabase dbName storeName env
  = (Return (),
     {| this := this env;
        world := set_databases (<[dbName := {[ storeName := [] ]}]> (databases (world env)))
                   (world env) |}).
Proof.
  intros Hup Hdb. unfold openDatabase. run.
  rewrite decide_False by done. by rewrite Hdb.
Qed.

Lemma objectStore_found dbName storeName env store :
  entries (world env) dbName storeName = Some store →
  objectStore dbName storeName env = (Return store, env).
Proof. unfold entries, objectStore. run. by intros ->. Qed.

(** Reading the store a rotation starts with, when it can be read. *)
Lemma rotation_reads_store dbName storeName env store :
  dbName ∉ unavailable (world env) →
  entries (world env) dbName storeName = Some store →
  openDatabase dbName storeName env = (Return (), env)
  ∧ objectStore dbName storeName env = (Return store, env).
Proof.
  intros Hup Hstore. split; [|by apply objectStore_found].
  unfold entries in Hstore.
  destruct (databases (world env) !! dbName) as [db|] eqn:Hdb; [|done].
  by eapply openDatabase_existing.
Qed.

(** X9. A rotation over one store that has no entry (or whose database
    is created by the call), in a database other than the parameter
    database of the class, does install the key of the new password:
    the call returns, the instance holds the key derived from the new
    password and a fresh salt, that salt is the persisted one, and the
    store is empty. *)
Theorem changePassword_empty_store_installs_new_key (newPassword dbName storeName : string)
    env (old : CryptoKey) baseKey (k : CryptoKey) :
  masterKey (this env) = Some old →
  dbName ≠ "SecureStorageParams" →
  dbName ∉ unavailable (world env) →
  "SecureStorageParams" ∉ unavailable (world env) →
  entries (world env) dbName storeName = Some []
  ∨ databases (world env) !! dbName = None →
  importKey (TextEncoder_encode newPassword) = Some baseKey →
  deriveKey (random_block (world env) (drawn (world env)) SALT_LENGTH)
    ITERATIONS baseKey KEY_LENGTH = Some k →
  ∃ env',
    changePassword newPassword dbName [storeName] env = (Return (), env')
    ∧ masterKey (this env') = Some k
    ∧ persisted_salt (world env')
      = Some (random_block (world env) (drawn (world env)) SALT_LENGTH)
    ∧ entries (world env') dbName storeName = Some [].
Proof.
  intros Hkey _ Hup Hparams Hstore Himport Hderive.
  assert (∃ env1,
    openDatabase dbName storeName env = (Return (), env1)
    ∧ objectStore dbName storeName env1 = (Return [], env1)
    ∧ this env1 = this env
    ∧ unavailable (world env1) = unavailable (world env)
    ∧ entropy (world env1) = entropy (world env)
    ∧ drawn (world env1) = drawn (world env)
    ∧ entries (world env1) dbName storeName = Some [])
    as (env1 & Hopen & Hread & Hthis & Hsame & Hentropy & Hdrawn & Hempty).
  { destruct Hstore as [Hstore|Hnew].
    - exists env. by destruct (rotation_reads_store _ _ _ _ Hup Hstore).
    - eexists. split; [by apply openDatabase_new|].
      assert (∀ w', entries (set_databases
                (<[dbName := {[ storeName := [] ]}]> (databases (world env))) w')
                dbName storeName = Some []) as Hcreated.
      { intros w'. unfold entries. simpl. rewrite lookup_insert_eq. simpl.
        by rewrite lookup_singleton_eq. }
      split_and!; try done; [apply objectStore_found|]; apply Hcreated. }
  destruct (initialize_completes newPassword None env1 baseKey k)
    as (env2 & Hinit & Hnew & _ & Hdbs & _ & Hsalt).
  { by rewrite Hsame. }
  { done. }
  { unfold salt_used, random_block. by rewrite Hentropy, Hdrawn. }
  assert (reencrypt_store old newPassword dbName storeName env = (Return (), env2))
    as Hrotate.
  { unfold reencrypt_store.
    rewrite (bind_runs _ _ _ _ _ Hopen), (bind_runs _ _ _ _ _ Hread).
    cbn [result for_of]. by rewrite (bind_runs _ _ _ _ _ Hinit). }
  exists env2. split_and!.
  - unfold changePassword, get_masterKey, try_catch.
    unfold mbind at 1, Async_bind at 1. rewrite Hkey.
    cbn [for_of]. by rewrite (bind_runs _ _ _ _ _ Hrotate).
  - done.
  - rewrite Hsalt. unfold salt_used, random_block. by rewrite Hentropy, Hdrawn.
  - unfold entries in *. by rewrite Hdbs.
Qed.

(** The handler of [changePassword], applied to what its loop threw. *)
Lemma changePassword_rethrows newPassword dbName storeNames env (old : CryptoKey) e env1 :
  masterKey (this env) = Some old →
  for_of storeNames (reencrypt_store old newPassword dbName) env = (Throw e, env1) →
  changePassword newPassword dbName storeNames env
  = (Throw (Error MSG_CHANGE_PASSWORD),
     {| this := this env1;
        world := set_console
                   (("Erreur lors du changement de mot de passe:", e)
                    :: console (world env1)) (world env1) |}).
Proof.
  intros Hkey Hloop. unfold changePassword, get_masterKey, try_catch.
  unfold mbind at 1, Async_bind at 1. rewrite Hkey, Hloop. done.
Qed.

(** X10. A store that cannot be read stops the rotation before any key
    is derived: when the database does not open, or has no store of
    that name, [changePassword] throws and the instance, the databases,
    the persisted salt and the random source are as before. *)
Theorem changePassword_unreadable_store (newPassword dbName storeName : string)
    (others : list string) env (old : CryptoKey) :
  masterKey (this env) = Some old →
  dbName ∈ unavailable (world env)
  ∨ (∃ db, databases (world env) !! dbName = Some db ∧ db !! storeName = None) →
  ∃ env',
    changePassword newPassword dbName (storeName :: others) env
    = (Throw (Error MSG_CHANGE_PASSWORD), env')
    ∧ this env' = this env
    ∧ databases (world env') = databases (world env)
    ∧ securityDb (world env') = securityDb (world env)
    ∧ drawn (world env') = drawn (world env).
Proof.
  intros Hkey Hstore.
  assert (∃ e, reencrypt_store old newPassword dbName storeName env = (Throw e, env))
    as [e Hrotate].
  { unfold reencrypt_store, openDatabase, objectStore. run.
    destruct Hstore as [Hdown|(db & Hdb & Hnone)].
    - rewrite decide_True by done. by eexists.
    - destruct (decide (dbName ∈ unavailable (world env))); [by eexists|].
      simpl. rewrite Hdb. simpl. rewrite Hdb. simpl. rewrite Hnone. by eexists. }
  eexists. split.
  - eapply changePassword_rethrows; [done|].
    cbn [for_of]. by apply bind_throws.
  - done.
Qed.

(** X11. When the store is read but the new salt cannot be saved, the
    rotation throws with nothing rewritten, and the instance is left
    holding the key of the new password. *)
Theorem changePassword_salt_not_saved (newPassword dbName storeName : string)
    (others : list string) env (old : CryptoKey) baseKey (k : CryptoKey) :
  masterKey (this env) = Some old →
  dbName ∉ unavailable (world env) →
  is_Some (entries (world env) dbName storeName) →
  "SecureStorageParams" ∈ unavailable (world env) →
  importKey (TextEncoder_encode newPassword) = Some baseKey →
  deriveKey (random_block (world env) (drawn (world env)) SALT_LENGTH)
    ITERATIONS baseKey KEY_LENGTH = Some k →
  ∃ env',
    changePassword newPassword dbName (storeName :: others) env
    = (Throw (Error MSG_CHANGE_PASSWORD), env')
    ∧ masterKey (this env') = Some k
    ∧ databases (world env') = databases (world env)
    ∧ securityDb (world env') = securityDb (world env).
Proof.
  intros Hkey Hup [store Hstore] Hdown Himport Hderive.
  destruct (rotation_reads_store _ _ _ _ Hup Hstore) as [Hopen Hread].
  destruct (initialize_salt_not_saved newPassword None env baseKey k Hdown Himport Hderive)
    as (env1 & Hinit & Hnew & _ & Hdbs & Hparams).
  assert (reencrypt_store old newPassword dbName storeName env
          = (Throw (Error MSG_INITIALIZE), env1)) as Hrotate.
  { unfold reencrypt_store.
    rewrite (bind_runs _ _ _ _ _ Hopen), (bind_runs _ _ _ _ _ Hread).
    cbn [result]. by apply bind_throws. }
  eexists. split.
  - eapply changePassword_rethrows; [done|].
    cbn [for_of]. by apply bind_throws.
  - done.
Qed.

(** X12. When the first entry of the store is not opened by the current
    key, the rotation throws with nothing rewritten and the old key back
    in place, but the salt persisted is already the new one. *)
Theorem changePassword_fails_after_salt_replaced (newPassword dbName storeName : string)
    (others : list string) env (old : CryptoKey) baseKey (k : CryptoKey)
    (first : Entry) (following : list Entry) :
  ready (this env) = Fulfilled →
  masterKey (this env) = Some old →
  dbName ∉ unavailable (world env) →
  "SecureStorageParams" ∉ unavailable (world env) →
  entries (world env) dbName storeName = Some (first :: following) →
  importKey (TextEncoder_encode newPassword) = Some baseKey →
  deriveKey (random_block (world env) (drawn (world env)) SALT_LENGTH)
    ITERATIONS baseKey KEY_LENGTH = Some k →
  aes_gcm_decrypt old (iv first) (encryptedData first) = None →
  ∃ env',
    changePassword newPassword dbName (storeName :: others) env
    = (Throw (Error MSG_CHANGE_PASSWORD), env')
    ∧ masterKey (this env') = Some old
    ∧ databases (world env') = databases (world env)
    ∧ persisted_salt (world env')
      = Some (random_block (world env) (drawn (world env)) SALT_LENGTH).
Proof.
  intros Hready Hkey Hup Hparams Hstore Himport Hderive Hclosed.
  destruct (rotation_reads_store _ _ _ _ Hup Hstore) as [Hopen Hread].
  destruct (initialize_completes newPassword None env baseKey k Hparams Himport Hderive)
    as (env1 & Hinit & _ & Hready1 & Hdbs & _ & Hsalt).
  assert (∃ env2,
    reencrypt_item old dbName storeName first env1 = (Throw (Error MSG_DECRYPT), env2)
    ∧ masterKey (this env2) = Some old
    ∧ databases (world env2) = databases (world env1)
    ∧ securityDb (world env2) = securityDb (world env1))
    as (env2 & Hitem & Hold & Hdbs2 & Hparams2).
  { unfold reencrypt_item, decrypt, subtle_decrypt. run.
    rewrite Hready1, Hready. simpl. rewrite Hclosed. simpl. by eexists. }
  assert (reencrypt_store old newPassword dbName storeName env
          = (Throw (Error MSG_DECRYPT), env2)) as Hrotate.
  { unfold reencrypt_store.
    rewrite (bind_runs _ _ _ _ _ Hopen), (bind_runs _ _ _ _ _ Hread).
    cbn [result]. rewrite (bind_runs _ _ _ _ _ Hinit).
    cbn [for_of]. by apply bind_throws. }
  eexists. split.
  - eapply changePassword_rethrows; [done|].
    cbn [for_of]. by apply bind_throws.
  - simpl. split_and!; [done|congruence|].
    unfold persisted_salt in *. unfold set_console. simpl. by rewrite Hparams2.
Qed.

(** A turn of the inner loop that throws has written nothing. *)
Lemma reencrypt_item_failure_writes_nothing (old : CryptoKey) dbName storeName item
    env e env' :
  reencrypt_item old dbName storeName item env = (Throw e, env') →
  databases (world env') = databases (world env).
Proof.
  unfold reencrypt_item, decrypt, subtle_decrypt, storeEncrypted, encrypt, openDatabase,
    objectStore, Date_getTime, put_item, getRandomValues.
  run. intros H.
  repeat (case_inner_in H; rewrite ?lookup_insert_eq in *; simplify_eq/=;
          rewrite ?lookup_singleton_eq in *; simplify_eq/=); done.
Qed.

(** X13. The inner loop has no rollback: when an entry fails after
    others were rewritten, the loop stops there and the databases are
    exactly as the last completed entry left them, the rewritten
    entries rewritten and the remaining ones untouched. *)
Theorem reencrypt_loop_has_no_rollback (old : CryptoKey) (dbName storeName : string)
    (completed : list Entry) (failing : Entry) (remaining : list Entry)
    env env1 e env2 :
  for_of completed (reencrypt_item old dbName storeName) env = (Return (), env1) →
  reencrypt_item old dbName storeName failing env1 = (Throw e, env2) →
  for_of (completed ++ failing :: remaining) (reencrypt_item old dbName storeName) env
  = (Throw e, env2)
  ∧ databases (world env2) = databases (world env1).
Proof.
  intros Hcompleted Hfailing. split.
  - rewrite for_of_app, Hcompleted. cbn [for_of]. by apply bind_throws.
  - by eapply reencrypt_item_failure_writes_nothing.
Qed.

(** *** Sessions *)

(** X14. A store constructed with the same password and the same
    supplied salt, in whatever browser state, holds the same key: what
    one instance encrypts the other decrypts. *)
Theorem same_password_and_salt_reopen `{!PlatformLaws P} (password : string)
    (salt : Bytes) (w1 w2 : World) (data : Payload) :
  let first := new_SecureStorage password (Some salt) w1 in
  let second := new_SecureStorage password (Some salt) w2 in
  ready (this first) = Fulfilled →
  ready (this second) = Fulfilled →
  is_Some (JSON_stringify data) →
  masterKey (this second) = masterKey (this first)
  ∧ ∃ encrypted nonce env',
      encrypt data first = (Return (encrypted, nonce), env')
      ∧ fst (decrypt (Some encrypted) (Some nonce) second) = Return data.
Proof.
  intros first second Hready1 Hready2 [s Hs].
  destruct (new_SecureStorage_persists_salt_used password (Some salt) w1 Hready1)
    as (baseKey1 & k1 & Himport1 & Hderive1 & Hkey1 & _).
  destruct (new_SecureStorage_persists_salt_used password (Some salt) w2 Hready2)
    as (baseKey2 & k2 & Himport2 & Hderive2 & Hkey2 & _).
  fold first in Hkey1. fold second in Hkey2. simpl in *.
  assert (k2 = k1) as -> by congruence.
  split; [congruence|].
  eexists _, _, _. split.
  - by apply (encrypt_returns data s k1 first).
  - unfold decrypt, subtle_decrypt. run.
    rewrite Hready2; simpl. rewrite Hkey2, aes_gcm_correct; simpl.
    by rewrite (utf8_correct data s Hs), (JSON_correct data s Hs).
Qed.

(** *** Failures, method by method *)

Lemma encrypt_rejected (data : Payload) env e :
  ready (this env) = Rejected e → fst (encrypt data env) = Throw e.
Proof. intros Hready. unfold encrypt. run. by rewrite Hready. Qed.

Lemma decrypt_rejected encrypted nonce env e :
  ready (this env) = Rejected e → fst (decrypt encrypted nonce env) = Throw e.
Proof. intros Hready. unfold decrypt. run. by rewrite Hready. Qed.

Lemma encrypt_without_key (data : Payload) env :
  ready (this env) = Fulfilled →
  masterKey (this env) = None →
  fst (encrypt data env) = Throw (Error MSG_KEY_NOT_INITIALIZED).
Proof. intros Hready Hkey. unfold encrypt. run. rewrite Hready; simpl. by rewrite Hkey. Qed.

Lemma decrypt_without_key encrypted nonce env :
  ready (this env) = Fulfilled →
  masterKey (this env) = None →
  fst (decrypt encrypted nonce env) = Throw (Error MSG_KEY_NOT_INITIALIZED).
Proof. intros Hready Hkey. unfold decrypt. run. rewrite Hready; simpl. by rewrite Hkey. Qed.

Lemma changePassword_guard newPassword dbName storeNames env :
  masterKey (this env) = None →
  fst (changePassword newPassword dbName storeNames env) = Throw (Error MSG_CURRENT_KEY).
Proof. intros Hkey. unfold changePassword. run. by rewrite Hkey. Qed.

(** Whatever [encrypt] throws, [storeEncrypted] throws its own error. *)
Lemma storeEncrypted_encrypt_failure dbName storeName k (data : Payload) env e env1 :
  encrypt data env = (Throw e, env1) →
  fst (storeEncrypted dbName storeName k data env) = Throw (Error MSG_STORE).
Proof.
  intros Hencrypt. unfold storeEncrypted, try_catch.
  by rewrite (bind_throws _ _ _ _ _ Hencrypt).
Qed.

Lemma storeEncrypted_unreadable dbName storeName k (data : Payload) env :
  dbName ∈ unavailable (world env)
  ∨ (∃ db, databases (world env) !! dbName = Some db ∧ db !! storeName = None) →
  fst (storeEncrypted dbName storeName k data env) = Throw (Error MSG_STORE).
Proof.
  intros [Hdown|(db & Hdb & Hnone)].
  - by apply storeEncrypted_database_failure.
  - by eapply storeEncrypted_missing_store.
Qed.

(** Whatever the loop of [changePassword] throws, the method throws. *)
Lemma changePassword_loop_failure newPassword dbName storeNames env (old : CryptoKey)
    e env1 :
  masterKey (this env) = Some old →
  for_of storeNames (reencrypt_store old newPassword dbName) env = (Throw e, env1) →
  fst (changePassword newPassword dbName storeNames env)
  = Throw (Error MSG_CHANGE_PASSWORD).
Proof.
  intros Hkey Hloop.
  by rewrite (changePassword_rethrows _ _ _ _ _ _ _ Hkey Hloop).
Qed.

Lemma changePassword_store_failure newPassword dbName storeName others env
    (old : CryptoKey) :
  masterKey (this env) = Some old →
  dbName ∈ unavailable (world env)
  ∨ (∃ db, databases (world env) !! dbName = Some db ∧ db !! storeName = None) →
  fst (changePassword newPassword dbName (storeName :: others) env)
  = Throw (Error MSG_CHANGE_PASSWORD).
Proof.
  intros Hkey Hstore.
  assert (∃ e, reencrypt_store old newPassword dbName storeName env = (Throw e, env))
    as [e Hrotate].
  { unfold reencrypt_store, openDatabase, objectStore. run.
    destruct Hstore as [Hdown|(db & Hdb & Hnone)].
    - rewrite decide_True by done. by eexists.
    - destruct (decide (dbName ∈ unavailable (world env))); [by eexists|].
      simpl. rewrite Hdb. simpl. rewrite Hdb. simpl. rewrite Hnone. by eexists. }
  eapply changePassword_loop_failure; [done|].
  cbn [for_of]. by apply bind_throws.
Qed.

(** An entry the current key does not open makes the rotation throw,
    whether or not the key of the new password could be installed. *)
Lemma changePassword_entry_failure newPassword dbName storeName others env
    (old : CryptoKey) first following :
  masterKey (this env) = Some old →
  dbName ∉ unavailable (world env) →
  entries (world env) dbName storeName = Some (first :: following) →
  aes_gcm_decrypt old (iv first) (encryptedData first) = None →
  fst (changePassword newPassword dbName (storeName :: others) env)
  = Throw (Error MSG_CHANGE_PASSWORD).
Proof.
  intros Hkey Hup Hstore Hclosed.
  destruct (rotation_reads_store _ _ _ _ Hup Hstore) as [Hopen Hread].
  assert (∃ e env2, reencrypt_store old newPassword dbName storeName env = (Throw e, env2))
    as (e & env2 & Hrotate).
  { unfold reencrypt_store.
    rewrite (bind_runs _ _ _ _ _ Hopen), (bind_runs _ _ _ _ _ Hread). cbn [result].
    destruct (initialize newPassword None env) as [[[]|e1] env1] eqn:Hinit.
    - rewrite (bind_runs _ _ _ _ _ Hinit). cbn [for_of].
      assert (∃ e env2, reencrypt_item old dbName storeName first env1 = (Throw e, env2))
        as (e & env2 & Hitem).
      { unfold reencrypt_item, decrypt, subtle_decrypt. run.
        destruct (ready (this env1)); simpl; [rewrite Hclosed; simpl|]; by eexists _, _. }
      eexists _, _. by apply bind_throws.
    - eexists _, _. by apply bind_throws. }
  eapply changePassword_loop_failure; [done|].
  cbn [for_of]. by apply bind_throws.
Qed.

(** C8, as the code has it. A failure a method observes reaches the
    caller as an exception; which failures the caller can tell apart
    depends on the method it went through.
    - [initialize] throws when the key cannot be derived and when the
      salt cannot be saved, and whatever it throws is the one
      initialization error.
    - [encrypt] and [decrypt] throw the reason [ready] was rejected
      with, the key-not-initialized error when no key is held, and
      otherwise their own error: [encrypt] for a value [JSON.stringify]
      rejects, [decrypt] for a buffer the key does not open and, with
      the same error, for an opened buffer that is not JSON.
    - [storeEncrypted] throws when [encrypt] throws, when the database
      does not open and when the store is missing, always its own error.
    - [retrieveDecrypted] throws its own error on every call.
    - [changePassword] throws its guard's error when no key is held;
      with a key, it throws whenever a store of the list throws (one
      that cannot be read, one whose first entry the key does not
      open), always the one password-change error.
    - Loading the salt never throws.
    The request [store.put] returns is not waited for by the code, and
    a [put] issued is taken to take effect: a write failing later is not
    among the failures spoken of. *)
Theorem failures_reported_per_method :
  (∀ password providedSalt env e env',
     initialize password providedSalt env = (Throw e, env') →
     e = Error MSG_INITIALIZE)
  ∧ (∀ password providedSalt env,
       (∀ baseKey, importKey (TextEncoder_encode password) = Some baseKey →
          deriveKey (salt_used providedSalt (world env)) ITERATIONS baseKey KEY_LENGTH
          = None)
       ∨ "SecureStorageParams" ∈ unavailable (world env) →
       fst (initialize password providedSalt env) = Throw (Error MSG_INITIALIZE))
  ∧ (∀ data env e env',
       encrypt data env = (Throw e, env') →
       ready (this env) = Rejected e
       ∨ e = Error MSG_KEY_NOT_INITIALIZED ∨ e = Error MSG_ENCRYPT)
  ∧ (∀ data env e,
       ready (this env) = Rejected e → fst (encrypt data env) = Throw e)
  ∧ (∀ data env,
       ready (this env) = Fulfilled → masterKey (this env) = None →
       fst (encrypt data env) = Throw (Error MSG_KEY_NOT_INITIALIZED))
  ∧ (∀ (k : CryptoKey) data env,
       ready (this env) = Fulfilled → masterKey (this env) = Some k →
       JSON_stringify data = None →
       fst (encrypt data env) = Throw (Error MSG_ENCRYPT))
  ∧ (∀ encrypted nonce env e env',
       decrypt encrypted nonce env = (Throw e, env') →
       ready (this env) = Rejected e
       ∨ e = Error MSG_KEY_NOT_INITIALIZED ∨ e = Error MSG_DECRYPT)
  ∧ (∀ encrypted nonce env e,
       ready (this env) = Rejected e → fst (decrypt encrypted nonce env) = Throw e)
  ∧ (∀ encrypted nonce env,
       ready (this env) = Fulfilled → masterKey (this env) = None →
       fst (decrypt encrypted nonce env) = Throw (Error MSG_KEY_NOT_INITIALIZED))
  ∧ (∀ (k : CryptoKey) encrypted nonce env,
       ready (this env) = Fulfilled → masterKey (this env) = Some k →
       aes_gcm_decrypt k nonce encrypted = None
       ∨ (∃ plaintext, aes_gcm_decrypt k nonce encrypted = Some plaintext
                       ∧ JSON_parse (TextDecoder_decode plaintext) = None) →
       fst (decrypt (Some encrypted) (Some nonce) env) = Throw (Error MSG_DECRYPT))
  ∧ (∀ dbName storeName k data env e env',
       storeEncrypted dbName storeName k data env = (Throw e, env') →
       e = Error MSG_STORE)
  ∧ (∀ dbName storeName k data env e env1,
       encrypt data env = (Throw e, env1) →
       fst (storeEncrypted dbName storeName k data env) = Throw (Error MSG_STORE))
  ∧ (∀ dbName storeName k data env,
       dbName ∈ unavailable (world env)
       ∨ (∃ db, databases (world env) !! dbName = Some db ∧ db !! storeName = None) →
       fst (storeEncrypted dbName storeName k data env) = Throw (Error MSG_STORE))
  ∧ (∀ dbName storeName k env,
       fst (retrieveDecrypted dbName storeName k env) = Throw (Error MSG_RETRIEVE))
  ∧ (∀ newPassword dbName storeNames env e env',
       changePassword newPassword dbName storeNames env = (Throw e, env') →
       e = Error MSG_CURRENT_KEY ∨ e = Error MSG_CHANGE_PASSWORD)
  ∧ (∀ newPassword dbName storeNames env,
       masterKey (this env) = None →
       fst (changePassword newPassword dbName storeNames env)
       = Throw (Error MSG_CURRENT_KEY))
  ∧ (∀ newPassword dbName storeNames env (old : CryptoKey) e env1,
       masterKey (this env) = Some old →
       for_of storeNames (reencrypt_store old newPassword dbName) env = (Throw e, env1) →
       fst (changePassword newPassword dbName storeNames env)
       = Throw (Error MSG_CHANGE_PASSWORD))
  ∧ (∀ newPassword dbName storeName others env (old : CryptoKey),
       masterKey (this env) = Some old →
       dbName ∈ unavailable (world env)
       ∨ (∃ db, databases (world env) !! dbName = Some db ∧ db !! storeName = None) →
       fst (changePassword newPassword dbName (storeName :: others) env)
       = Throw (Error MSG_CHANGE_PASSWORD))
  ∧ (∀ newPassword dbName storeName others env (old : CryptoKey) first following,
       masterKey (this env) = Some old →
       dbName ∉ unavailable (world env) →
       entries (world env) dbName storeName = Some (first :: following) →
       aes_gcm_decrypt old (iv first) (encryptedData first) = None →
       fst (changePassword newPassword dbName (storeName :: others) env)
       = Throw (Error MSG_CHANGE_PASSWORD))
  ∧ (∀ env, ∃ found, fst (getSecurityParams env) = Return found).
Proof.
  split_and!.
  - apply initialize_throws.
  - intros password providedSalt env [Hderive|Hdown].
    + by apply initialize_derivation_failure.
    + by apply initialize_save_failure.
  - apply encrypt_throws.
  - apply encrypt_rejected.
  - apply encrypt_without_key.
  - apply encrypt_unserializable.
  - apply decrypt_throws.
  - apply decrypt_rejected.
  - apply decrypt_without_key.
  - intros k encrypted nonce env Hready Hkey [Hopen|(plaintext & Hopen & Hparse)].
    + by eapply decrypt_wrong_key_or_tampered.
    + by eapply decrypt_malformed_payload.
  - apply storeEncrypted_throws.
  - apply storeEncrypted_encrypt_failure.
  - apply storeEncrypted_unreadable.
  - apply retrieveDecrypted_throws.
  - apply changePassword_throws.
  - apply changePassword_guard.
  - apply changePassword_loop_failure.
  - apply changePassword_store_failure.
  - apply changePassword_entry_failure.
  - apply getSecurityParams_never_throws.
Qed.

End Coverage.

(** ** The reference platform meets the contracts *)

Module ReferenceLaws.
Import Reference.

Lemma open_seal k nonce plaintext : open k nonce (seal k nonce plaintext) = Some plaintext.
Proof.
  unfold open, seal. rewrite take_app_length, drop_app_length.
  by rewrite decide_True.
Qed.

Lemma strip_app p r : strip p (p ++ r) = Some r.
Proof. induction p as [|a p IH]; simpl; [done|]. by rewrite decide_True. Qed.

Lemma chars_of_list l : chars (String.string_of_list_ascii l) = l.
Proof. apply String.list_ascii_of_string_of_list_ascii. Qed.

Lemma of_chars s : String.string_of_list_ascii (chars s) = s.
Proof. apply String.string_of_list_ascii_of_string. Qed.

Lemma length_of_list l : String.length (String.string_of_list_ascii l) = length l.
Proof. induction l; simpl; congruence. Qed.

(** Strings *)

Lemma parse_string_escaped l r :
  parse_string (flat_map escape l ++ dquote :: r) = Some (l, r).
Proof.
  induction l as [|c l IH].
  - done.
  - cbn [flat_map]. rewrite <- app_assoc. unfold escape at 1.
    destruct (decide (c = dquote)) as [->|Hq];
      [|destruct (decide (c = "\"%char)) as [->|Hb]];
      cbn [app parse_string]; rewrite ?IH;
      repeat (case_decide; simplify_eq; try done; try naive_solver).
Qed.

Lemma parse_print_string s r :
  parse_string (flat_map escape (chars s) ++ dquote :: r) = Some (chars s, r).
Proof. apply parse_string_escaped. Qed.

(** Numbers *)

Lemma span_all f l r :
  Forall (λ c, f c = true) l →
  match r with [] => True | c :: _ => f c = false end →
  span f (l ++ r) = (l, r).
Proof.
  intros Hl Hr. induction Hl as [|c l Hc _ IH]; simpl.
  - destruct r as [|c r]; [done|]. simpl. by rewrite Hr.
  - by rewrite Hc, IH.
Qed.

Lemma digits_number_chars d :
  Forall (λ c, is_number_char c = true) (chars (NilEmpty.string_of_uint d)).
Proof. induction d; simpl; constructor; done. Qed.

Lemma print_number_chars n : Forall (λ c, is_number_char c = true) (print_number n).
Proof.
  unfold print_number. destruct (Z.to_int n); simpl.
  - apply digits_number_chars.
  - constructor; [done|]. apply digits_number_chars.
Qed.

Lemma digits_nonempty d : d ≠ Decimal.Nil → chars (NilEmpty.string_of_uint d) ≠ [].
Proof. by destruct d. Qed.

Lemma print_number_nonempty n : print_number n ≠ [].
Proof.
  unfold print_number, Z.to_int. destruct n; simpl; [done| |done].
  apply digits_nonempty, Unsigned.to_uint_nonnil.
Qed.

Lemma parse_print_number n r :
  ok_rest r → parse_number (print_number n ++ r) = Some (n, r).
Proof.
  intros Hr. unfold parse_number.
  rewrite (span_all _ _ _ (print_number_chars n) Hr).
  pose proof (print_number_nonempty n) as Hne.
  destruct (print_number n) as [|c l] eqn:Hprint; [done|].
  rewrite <- Hprint. unfold print_number. rewrite of_chars, NilEmpty.isi. simpl.
  by rewrite DecimalZ.of_to.
Qed.

(** Values *)

Lemma number_char_not_structural c :
  is_number_char c = true →
  c ≠ "n"%char ∧ c ≠ "t"%char ∧ c ≠ "f"%char ∧ c ≠ dquote
  ∧ c ≠ "["%char ∧ c ≠ "{"%char ∧ c ≠ "]"%char.
Proof. intros Hc. split_and!; intros ->; done. Qed.

Lemma print_number_head n :
  ∃ c l, print_number n = c :: l ∧ is_number_char c = true.
Proof.
  pose proof (print_number_chars n) as Hall.
  pose proof (print_number_nonempty n) as Hne.
  destruct (print_number n) as [|c l]; [done|].
  exists c, l. split; [done|]. by inversion Hall.
Qed.

(** No value starts with a closing bracket. *)
Lemma print_head v : ∃ c l, print v = c :: l ∧ c ≠ "]"%char.
Proof.
  destruct v as [|[]|n|s|[|x xs]|[|m ms]]; simpl; try by eexists _, _.
  destruct (print_number_head n) as (c & l & -> & Hc).
  exists c, l. split; [done|]. by apply number_char_not_structural.
Qed.

Lemma strip_bracket_print v r : strip ["]"%char] (print v ++ r) = None.
Proof.
  destruct (print_head v) as (c & l & -> & Hc). simpl.
  by rewrite decide_False.
Qed.

Lemma ok_rest_elements value xs r : ok_rest (print_elements value xs ++ r).
Proof. by destruct xs. Qed.

Lemma ok_rest_members value ms r : ok_rest (print_members value ms ++ r).
Proof. by destruct ms. Qed.

Lemma parse_print_elements xs :
  Forall parses xs →
  ∀ fuel r, length (print_elements print xs) ≤ fuel → ok_rest r →
    parse_elements fuel (print_elements print xs ++ r) = Some (xs, r).
Proof.
  induction 1 as [|y ys Hy _ IH]; intros fuel r Hfuel Hr.
  - destruct fuel as [|f]; [simpl in Hfuel; lia|]. done.
  - cbn [print_elements] in *. rewrite length_cons, length_app in Hfuel.
    destruct fuel as [|f]; [lia|].
    cbn [app parse_elements]. rewrite decide_False, decide_True by done.
    rewrite <- app_assoc.
    rewrite Hy by (lia || apply ok_rest_elements). simpl.
    rewrite IH by (lia || done). done.
Qed.

Lemma parse_print_member (value : list ascii → option (json * list ascii)) m r r' :
  value (print m.2 ++ r) = Some (m.2, r') →
  parse_member value (print_string m.1 ++ ":"%char :: print m.2 ++ r) = Some (m, r').
Proof.
  intros Hvalue. destruct m as [k v]. unfold parse_member, print_string.
  cbn [fst snd app strip]. rewrite decide_True by done. simpl.
  rewrite <- app_assoc. cbn [app]. rewrite parse_print_string. simpl.
  simpl in Hvalue. rewrite Hvalue. simpl. by rewrite of_chars.
Qed.

Lemma parse_print_members ms :
  Forall (λ m, parses m.2) ms →
  ∀ fuel r, length (print_members print ms) ≤ fuel → ok_rest r →
    parse_members fuel (print_members print ms ++ r) = Some (ms, r).
Proof.
  induction 1 as [|m ms Hm _ IH]; intros fuel r Hfuel Hr.
  - destruct fuel as [|f]; [simpl in Hfuel; lia|]. done.
  - cbn [print_members] in *.
    rewrite length_cons, length_app, length_cons, length_app in Hfuel.
    destruct fuel as [|f]; [lia|].
    cbn [app parse_members]. rewrite decide_False, decide_True by done.
    rewrite <- !app_assoc. cbn [app]. rewrite <- app_assoc.
    rewrite (parse_print_member _ m _ (print_members print ms ++ r))
      by (apply Hm; [lia | apply ok_rest_members]).
    simpl. rewrite IH by (lia || done). done.
Qed.

Lemma parse_value_print v : parses v.
Proof.
  induction v as [|b|n|s|xs IH|ms IH] using json_ind; intros fuel r Hfuel Hr.
  - destruct fuel as [|f]; [simpl in Hfuel; lia|]. done.
  - destruct fuel as [|f]; [destruct b; simpl in Hfuel; lia|]. by destruct b.
  - pose proof (parse_print_number n r Hr) as Hnumber.
    destruct (print_number_head n) as (c & l & Hprint & Hc).
    cbn [print] in *. rewrite Hprint in *.
    destruct fuel as [|f]; [simpl in Hfuel; lia|].
    destruct (number_char_not_structural c Hc) as (?&?&?&?&?&?&?).
    cbn [app parse_value]. rewrite !decide_False by done.
    cbn [app] in Hnumber. by rewrite Hnumber.
  - destruct fuel as [|f]; [simpl in Hfuel; lia|].
    cbn [print]. unfold print_string. cbn [app parse_value].
    rewrite <- app_assoc. cbn [app].
    rewrite !decide_False by done. rewrite decide_True by done.
    rewrite parse_print_string. simpl. by rewrite of_chars.
  - destruct xs as [|x xs]; (destruct fuel as [|f]; [simpl in Hfuel; lia|]); [done|].
    apply Forall_cons in IH as [Hx Hxs].
    cbn [print] in *. rewrite length_cons, length_app in Hfuel.
    cbn [app parse_value]. rewrite !decide_False by done. rewrite decide_True by done.
    rewrite <- app_assoc, strip_bracket_print.
    rewrite Hx by (lia || apply ok_rest_elements). simpl.
    rewrite parse_print_elements by (done || lia). done.
  - destruct ms as [|m ms]; (destruct fuel as [|f]; [simpl in Hfuel; lia|]); [done|].
    apply Forall_cons in IH as [Hm Hms].
    cbn [print] in *.
    rewrite length_cons, length_app, length_cons, length_app in Hfuel.
    cbn [app parse_value]. rewrite !decide_False by done. rewrite decide_True by done.
    rewrite <- !app_assoc. cbn [app]. rewrite <- app_assoc.
    replace (strip ["}"%char] _) with (@None (list ascii))
      by (by unfold print_string).
    rewrite (parse_print_member _ m _ (print_members print ms ++ r))
      by (apply Hm; [lia | apply ok_rest_members]).
    simpl. rewrite parse_print_members by (done || lia). done.
Qed.

Lemma parse_stringify v s : stringify v = Some s → parse s = Some v.
Proof.
  intros [= <-]. unfold parse. rewrite chars_of_list, length_of_list.
  rewrite <- (app_nil_r (print v)) at 2.
  by rewrite parse_value_print.
Qed.

#[export] Instance laws : PlatformLaws platform.
Proof.
  split.
  - apply open_seal.
  - intros v s _. apply String.string_of_list_byte_of_string.
  - apply parse_stringify.
Qed.

End ReferenceLaws.

(** ** The scenarios, evaluated *)

Import Reference Scenario ReferenceLaws.

(** C1, at the README's run. The password change reports success, yet
    both entries are sealed again under the old key, the instance keeps
    the old key, and the persisted salt is a new one.  A store
    constructed with the old password and the old salt still opens the
    rewritten entries and gives back the original values; a store
    constructed with the new password and the persisted salt opens
    neither. *)
Theorem changePassword_reseals_under_old_key :
  ∃ oldKey a b,
    masterKey (this stored) = Some oldKey
    ∧ fst rotated = Return ()
    ∧ entries (world (snd rotated)) "ma-base" "utilisateurs" = Some [a; b]
    ∧ key a = "a" ∧ key b = "b"
    ∧ masterKey (this (snd rotated)) = Some oldKey
    ∧ persisted_salt (world (snd rotated)) = Some (salt newKey)
    ∧ salt newKey ≠ salt oldKey
    ∧ ready (this oldStore) = Fulfilled
    ∧ masterKey (this oldStore) = Some oldKey
    ∧ fst (decrypt (Some (encryptedData a)) (Some (iv a)) oldStore) = Return user
    ∧ fst (decrypt (Some (encryptedData b)) (Some (iv b)) oldStore) = Return other
    ∧ ready (this newStore) = Fulfilled
    ∧ masterKey (this newStore) = Some newKey
    ∧ fst (decrypt (Some (encryptedData a)) (Some (iv a)) newStore)
      = Throw (Error MSG_DECRYPT)
    ∧ fst (decrypt (Some (encryptedData b)) (Some (iv b)) newStore)
      = Throw (Error MSG_DECRYPT).
Proof.
  eexists _, _, _.
  split_and!; first [by vm_compute | vm_compute; discriminate].
Qed.

(** C2, at a second session. A salt is persisted, and the store is
    constructed again with the same password and no salt: the salt the
    key is derived from is the next draw of the random source, not the
    persisted one, which it replaces; the key differs from the first
    session's and no longer opens what that session stored. *)
Theorem initialize_ignores_persisted_salt :
  ∃ persisted k,
    persisted_salt (world stored) = Some persisted
    ∧ ready (this restarted) = Fulfilled
    ∧ masterKey (this restarted) = Some k
    ∧ salt k = random_block (world stored) (drawn (world stored)) SALT_LENGTH
    ∧ salt k ≠ persisted
    ∧ persisted_salt (world restarted) = Some (salt k)
    ∧ masterKey (this restarted) ≠ masterKey (this stored)
    ∧ fst (decrypt (Some sealed_a) (Some nonce_a) stored) = Return user
    ∧ fst (decrypt (Some sealed_a) (Some nonce_a) restarted) = Throw (Error MSG_DECRYPT).
Proof.
  eexists _, _.
  split_and!; first [by vm_compute | vm_compute; discriminate].
Qed.

(** C3, as stated, fails. ["archives"] holds an entry the current key
    does not open and ["utilisateurs"] two it does.  Rotating
    ["utilisateurs"] alone returns and rewrites its entries; rotating
    ["archives"] and then ["utilisateurs"] throws, leaves the entries of
    ["utilisateurs"] as they were, and ends exactly as rotating
    ["archives"] alone does. *)
Lemma failure_blocks_following_stores :
  let both :=
    changePassword "nouveau-mot-de-passe" "ma-base" ["archives"; "utilisateurs"] two_stores in
  let alone :=
    changePassword "nouveau-mot-de-passe" "ma-base" ["utilisateurs"] two_stores in
  fst both = Throw (Error MSG_CHANGE_PASSWORD)
  ∧ both = changePassword "nouveau-mot-de-passe" "ma-base" ["archives"] two_stores
  ∧ entries (world (snd both)) "ma-base" "utilisateurs"
    = entries (world two_stores) "ma-base" "utilisateurs"
  ∧ fst alone = Return ()
  ∧ entries (world (snd alone)) "ma-base" "utilisateurs"
    ≠ entries (world two_stores) "ma-base" "utilisateurs".
Proof.
  intros both alone. split_and!; [vm_compute; reflexivity..|].
  intros Hsame. apply (f_equal (λ store, timestamp <$> (store ≫= head))) in Hsame.
  vm_compute in Hsame. discriminate.
Qed.

(** C7, at the README's run. Nothing was ever stored under
    ["jamais-stockee"], neither in the fresh browser nor after the two
    writes, and [retrieveDecrypted] throws instead of returning
    [null]. *)
Theorem retrieveDecrypted_miss_throws :
  entries (world started) "ma-base" "utilisateurs" = None
  ∧ fst (retrieveDecrypted "ma-base" "utilisateurs" "jamais-stockee" started)
    = Throw (Error MSG_RETRIEVE)
  ∧ (entries (world stored) "ma-base" "utilisateurs"
       ≫= objectStore_lookup "jamais-stockee") = None
  ∧ fst (retrieveDecrypted "ma-base" "utilisateurs" "jamais-stockee" stored)
    = Throw (Error MSG_RETRIEVE).
Proof. split_and!; by vm_compute. Qed.

(** C8, as stated, fails. One buffer is not opened by the key, another
    is opened but holds no JSON; [decrypt] throws the same exception for
    both, and so does [retrieveDecrypted] on the stores holding them. *)
Lemma decryption_and_serialization_failures_merged :
  ∃ k,
    masterKey (this stored) = Some k
    ∧ ready (this stored) = Fulfilled
    ∧ aes_gcm_decrypt k nonce_a tampered = None
    ∧ (∃ plaintext,
         aes_gcm_decrypt k nonce_a malformed = Some plaintext
         ∧ JSON_parse (TextDecoder_decode plaintext) = None)
    ∧ fst (decrypt (Some tampered) (Some nonce_a) stored)
      = fst (decrypt (Some malformed) (Some nonce_a) stored)
    ∧ (entries (world (with_entry_a tampered)) "ma-base" "utilisateurs"
         ≫= objectStore_lookup "a")
      = Some {| key := "a"; encryptedData := tampered; iv := nonce_a; timestamp := 0 |}
    ∧ (entries (world (with_entry_a malformed)) "ma-base" "utilisateurs"
         ≫= objectStore_lookup "a")
      = Some {| key := "a"; encryptedData := malformed; iv := nonce_a; timestamp := 0 |}
    ∧ fst (retrieveDecrypted "ma-base" "utilisateurs" "a" (with_entry_a tampered))
      = fst (retrieveDecrypted "ma-base" "utilisateurs" "a" (with_entry_a malformed)).
Proof.
  eexists. split_and!; try by vm_compute.
  eexists. split; by vm_compute.
Qed.

(** ** The theorems at concrete inputs *)

(** C6 at an instance without a key. *)
Lemma changePassword_without_key_witness :
  masterKey (this unstarted) = None
  ∧ changePassword "nouveau-mot-de-passe" "ma-base" ["utilisateurs"] unstarted
    = (Throw (Error MSG_CURRENT_KEY), unstarted).
Proof.
  split; [reflexivity|].
  apply (changePassword_without_key "nouveau-mot-de-passe" "ma-base" ["utilisateurs"]
           unstarted).
  reflexivity.
Defined.

(** C9 after the two writes. *)
Lemma changePassword_no_stores_witness :
  ∃ k,
    masterKey (this stored) = Some k
    ∧ changePassword "nouveau-mot-de-passe" "ma-base" [] stored = (Return (), stored).
Proof.
  eexists. split; [vm_compute; reflexivity|].
  refine (proj1 (changePassword_no_stores "nouveau-mot-de-passe" "ma-base" stored _ _)).
  vm_compute. reflexivity.
Defined.

(** C10 with a salt passed in while another one is persisted. *)
Lemma initialize_persists_salt_used_witness :
  let provided := String.list_byte_of_string "sel-fourni-16oct" in
  let outcome := initialize "mot-de-passe-secret" (Some provided) stored in
  fst outcome = Return ()
  ∧ persisted_salt (world stored) = Some (random_block browser 0 SALT_LENGTH)
  ∧ persisted_salt (world (snd outcome)) = Some provided.
Proof.
  intros provided outcome.
  assert (outcome = (Return (), snd outcome)) as Hrun by (vm_compute; reflexivity).
  split_and!; [vm_compute; reflexivity..|].
  destruct (initialize_persists_salt_used "mot-de-passe-secret" (Some provided)
              stored (snd outcome) Hrun) as (baseKey & k & _ & _ & _ & Hsalt).
  exact Hsalt.
Defined.

(** C3 at the two stores: ["archives"] fails, ["utilisateurs"] follows. *)
Lemma changePassword_stops_at_first_failure_witness :
  ∃ k,
    masterKey (this two_stores) = Some k
    ∧ fst (changePassword "nouveau-mot-de-passe" "ma-base" ["archives"] two_stores)
      = Throw (Error MSG_CHANGE_PASSWORD)
    ∧ changePassword "nouveau-mot-de-passe" "ma-base"
        (["archives"] ++ ["utilisateurs"]) two_stores
      = changePassword "nouveau-mot-de-passe" "ma-base" ["archives"] two_stores.
Proof.
  eexists. split; [vm_compute; reflexivity|]. split; [vm_compute; reflexivity|].
  refine (proj2 (changePassword_stops_at_first_failure "nouveau-mot-de-passe" "ma-base"
                   ["archives"] ["utilisateurs"] two_stores _
                   (Error MSG_CHANGE_PASSWORD) _ _)).
  - vm_compute. reflexivity.
  - vm_compute. reflexivity.
Defined.

(** C4 at the value of the README, on the reference platform. *)
Lemma decrypt_encrypt_roundtrip_witness :
  ∃ k encrypted nonce env',
    ready (this stored) = Fulfilled
    ∧ masterKey (this stored) = Some k
    ∧ JSON_stringify user = Some (String.string_of_list_ascii (print user))
    ∧ encrypt user stored = (Return (encrypted, nonce), env')
    ∧ decrypt (Some encrypted) (Some nonce) env' = (Return user, env').
Proof.
  destruct (decrypt_encrypt_roundtrip (P := platform) user
              (default staleKey (masterKey (this stored))) stored)
    as (encrypted & nonce & env' & Hencrypt & Hthis & Hdecrypt).
  - vm_compute. reflexivity.
  - vm_compute. reflexivity.
  - eexists. reflexivity.
  - exists (default staleKey (masterKey (this stored))), encrypted, nonce, env'.
    split_and!; [vm_compute; reflexivity..|exact Hencrypt|exact (Hdecrypt env' Hthis)].
Defined.

(** C5 at two encryptions of the same value. *)
Lemma encrypt_calls_fresh_nonces_witness :
  ∃ k,
    ready (this started) = Fulfilled
    ∧ masterKey (this started) = Some k
    ∧ Forall (λ v, is_Some (JSON_stringify v)) [user; user]
    ∧ NoDup (nonce_blocks (world started) 2)
    ∧ ∃ sealed env',
        encrypt_calls [user; user] started = (Return sealed, env')
        ∧ sealed.*2 = nonce_blocks (world started) (length [user; user])
        ∧ Forall (λ nonce, length nonce = IV_LENGTH) sealed.*2
        ∧ (NoDup (nonce_blocks (world started) (length [user; user])) →
           NoDup sealed.*2 ∧ NoDup sealed).
Proof.
  assert (Forall (λ v : json, is_Some (JSON_stringify v)) [user; user]) as Hjson
    by (repeat constructor; by eexists).
  eexists. split_and!; [vm_compute; reflexivity..|exact Hjson| |].
  - refine (bool_decide_unpack _ _). vm_compute. exact I.
  - refine (encrypt_calls_fresh_nonces (P := platform) [user; user] _ started _ _ Hjson);
      vm_compute; reflexivity.
Defined.

(** C8 at failures of each kind: a construction whose salt was not
    saved, a value written to a store that is missing, a rotation over a
    store whose entry the key does not open, a rotation without a key,
    and the two buffers [decrypt] rejects. *)
Lemma failures_reported_per_method_witness :
  ready (this refused) = Rejected (Error MSG_INITIALIZE)
  ∧ fst (encrypt user refused) = Throw (Error MSG_INITIALIZE)
  ∧ fst (decrypt (Some sealed_a) (Some nonce_a) refused) = Throw (Error MSG_INITIALIZE)
  ∧ fst (storeEncrypted "ma-base" "utilisateurs" "a" user refused)
    = Throw (Error MSG_STORE)
  ∧ fst (storeEncrypted "ma-base" "inconnu" "a" user stored) = Throw (Error MSG_STORE)
  ∧ fst (retrieveDecrypted "ma-base" "utilisateurs" "a" stored)
    = Throw (Error MSG_RETRIEVE)
  ∧ fst (changePassword "nouveau-mot-de-passe" "ma-base" ["utilisateurs"] unstarted)
    = Throw (Error MSG_CURRENT_KEY)
  ∧ fst (changePassword "nouveau-mot-de-passe" "ma-base" ["inconnu"; "utilisateurs"] stored)
    = Throw (Error MSG_CHANGE_PASSWORD)
  ∧ fst (changePassword "nouveau-mot-de-passe" "ma-base" ["archives"; "utilisateurs"]
           two_stores)
    = Throw (Error MSG_CHANGE_PASSWORD)
  ∧ fst (decrypt (Some tampered) (Some nonce_a) stored) = Throw (Error MSG_DECRYPT)
  ∧ fst (decrypt (Some malformed) (Some nonce_a) stored) = Throw (Error MSG_DECRYPT).
Proof.
  assert (ready (this refused) = Rejected (Error MSG_INITIALIZE)) as Hrefused
    by (vm_compute; reflexivity).
  assert (masterKey (this stored) = Some currentKey) as Hkey by (vm_compute; reflexivity).
  destruct (failures_reported_per_method (P := platform))
    as (_ & _ & _ & Hencrypt & _ & _ & _ & Hdecrypt & _ & Hmerged & _ & Hsealing & Hmissing
        & Hretrieve & _ & Hguard & _ & Hunreadable & Hentry & _).
  split_and!.
  - exact Hrefused.
  - exact (Hencrypt user refused _ Hrefused).
  - exact (Hdecrypt (Some sealed_a) (Some nonce_a) refused _ Hrefused).
  - eapply (Hsealing "ma-base" "utilisateurs" "a" user refused).
    vm_compute. reflexivity.
  - apply Hmissing. right. eexists. split; vm_compute; reflexivity.
  - apply Hretrieve.
  - apply Hguard. reflexivity.
  - apply (Hunreadable _ _ _ _ _ currentKey Hkey).
    right. eexists. split; vm_compute; reflexivity.
  - apply (Hentry _ _ _ _ _ currentKey stale []).
    + vm_compute. reflexivity.
    + apply (bool_decide_unpack _). vm_compute. exact I.
    + vm_compute. reflexivity.
    + vm_compute. reflexivity.
  - apply (Hmerged currentKey tampered nonce_a stored); [vm_compute; reflexivity..|].
    left. vm_compute. reflexivity.
  - apply (Hmerged currentKey malformed nonce_a stored); [vm_compute; reflexivity..|].
    right. eexists. split; vm_compute; reflexivity.
Defined.

(** ** The further properties on the reference platform *)

(** X1 at a third value written after the two of the README. *)
Lemma storeEncrypted_then_decrypt_witness :
  ready (this stored) = Fulfilled
  ∧ masterKey (this stored) = Some currentKey
  ∧ "ma-base" ≠ "SecureStorageParams"
  ∧ ("ma-base" ∉ unavailable (world stored))
  ∧ is_Some (entries (world stored) "ma-base" "utilisateurs")
  ∧ ∃ env' jsonString,
      storeEncrypted "ma-base" "utilisateurs" "c" user stored = (Return (), env')
      ∧ entries (world env') "ma-base" "utilisateurs" ≫= objectStore_lookup "c"
        = Some (entry_written currentKey "c" jsonString stored)
      ∧ fst (decrypt (Some (encryptedData (entry_written currentKey "c" jsonString stored)))
               (Some (iv (entry_written currentKey "c" jsonString stored))) env')
        = Return user.
Proof.
  assert (is_Some (entries (world stored) "ma-base" "utilisateurs")) as Hstore
    by (eexists; vm_compute; reflexivity).
  assert ("ma-base" ∉ unavailable (world stored)) as Hup
    by (apply (bool_decide_unpack _); vm_compute; exact I).
  destruct (storeEncrypted_then_decrypt (P := platform) "ma-base" "utilisateurs" "c" user
              currentKey stored)
    as (env' & jsonString & _ & Hrun & _ & Hentry & Hdecrypt).
  - vm_compute. reflexivity.
  - vm_compute. reflexivity.
  - eexists. reflexivity.
  - discriminate.
  - exact Hup.
  - left. exact Hstore.
  - split_and!; [vm_compute; reflexivity..|discriminate|exact Hup|exact Hstore|].
    by exists env', jsonString.
Defined.

(** X2 at the second write of the README: the entry ["a"] stays. *)
Lemma storeEncrypted_keeps_the_rest_witness :
  let before := snd (storeEncrypted "ma-base" "utilisateurs" "a" user started) in
  storeEncrypted "ma-base" "utilisateurs" "b" other before = (Return (), stored)
  ∧ this stored = this before
  ∧ entries (world stored) "ma-base" "utilisateurs" ≫= objectStore_lookup "a"
    = entries (world before) "ma-base" "utilisateurs" ≫= objectStore_lookup "a".
Proof.
  intros before.
  assert (storeEncrypted "ma-base" "utilisateurs" "b" other before = (Return (), stored))
    as Hrun by (vm_compute; reflexivity).
  destruct (storeEncrypted_keeps_the_rest (P := platform) "ma-base" "utilisateurs" "b"
              other before stored Hrun) as (Hthis & _ & _ & _ & Hkeys).
  split_and!; [exact Hrun|exact Hthis|].
  apply Hkeys. discriminate.
Defined.

(** X3 at a write to a store that ["ma-base"] does not have. *)
Lemma storeEncrypted_failure_writes_nothing_witness :
  let outcome := storeEncrypted "ma-base" "inconnu" "a" user stored in
  fst outcome = Throw (Error MSG_STORE)
  ∧ this (snd outcome) = this stored
  ∧ databases (world (snd outcome)) = databases (world stored)
  ∧ securityDb (world (snd outcome)) = securityDb (world stored).
Proof.
  intros outcome.
  assert (outcome = (Throw (Error MSG_STORE), snd outcome)) as Hrun
    by (vm_compute; reflexivity).
  split; [vm_compute; reflexivity|].
  exact (storeEncrypted_failure_writes_nothing (P := platform) "ma-base" "inconnu" "a" user stored
           (Error MSG_STORE) (snd outcome) Hrun).
Defined.

(** X4 at the first write of the README. *)
Lemma storeEncrypted_creates_one_store_witness :
  let outcome := storeEncrypted "ma-base" "utilisateurs" "a" user started in
  databases (world started) !! "ma-base" = None
  ∧ fst outcome = Return ()
  ∧ (∃ written,
       key written = "a"
       ∧ databases (world (snd outcome)) !! "ma-base"
         = Some {[ "utilisateurs" := [written] ]})
  ∧ fst (storeEncrypted "ma-base" "archives" "x" other (snd outcome))
    = Throw (Error MSG_STORE).
Proof.
  intros outcome.
  assert (databases (world started) !! "ma-base" = None) as Hnew
    by (vm_compute; reflexivity).
  assert (outcome = (Return (), snd outcome)) as Hrun by (vm_compute; reflexivity).
  destruct (storeEncrypted_creates_one_store (P := platform) "ma-base" "utilisateurs" "a"
              user started (snd outcome) Hnew Hrun) as [Hone Hothers].
  split_and!; [exact Hnew|vm_compute; reflexivity|exact Hone|].
  apply Hothers. discriminate.
Defined.

(** X7 at a browser that refuses to open the parameter store. *)
Lemma construction_rejected_when_salt_not_saved_witness :
  let w := failing {["SecureStorageParams"]} browser in
  let env := new_SecureStorage "mot-de-passe-secret" None w in
  ("SecureStorageParams" ∈ unavailable w)
  ∧ ready (this env) = Rejected (Error MSG_INITIALIZE)
  ∧ is_Some (masterKey (this env))
  ∧ fst (encrypt user env) = Throw (Error MSG_INITIALIZE)
  ∧ fst (storeEncrypted "ma-base" "utilisateurs" "a" user env) = Throw (Error MSG_STORE).
Proof.
  intros w env.
  assert ("SecureStorageParams" ∈ unavailable w) as Hdown
    by (apply (bool_decide_unpack _); vm_compute; exact I).
  destruct (construction_rejected_when_salt_not_saved (P := platform)
              "mot-de-passe-secret" None w
              (String.list_byte_of_string "mot-de-passe-secret")
              {| password := String.list_byte_of_string "mot-de-passe-secret";
                 salt := salt_used None w;
                 iterations := ITERATIONS; bits := KEY_LENGTH |}
              Hdown eq_refl eq_refl)
    as (Hready & Hkey & _ & Hencrypt & _ & Hstore).
  split_and!; [exact Hdown|exact Hready|by eexists|apply Hencrypt|apply Hstore].
Defined.

(** X8 after the two writes: a salt is persisted and is not returned. *)
Lemma getSecurityParams_misses_persisted_salt_witness :
  ("SecureStorageParams" ∉ unavailable (world stored))
  ∧ persisted_salt (world stored) = Some (random_block browser 0 SALT_LENGTH)
  ∧ getSecurityParams stored = (Return None, stored).
Proof.
  assert ("SecureStorageParams" ∉ unavailable (world stored)) as Hup
    by (apply (bool_decide_unpack _); vm_compute; exact I).
  assert (persisted_salt (world stored) = Some (random_block browser 0 SALT_LENGTH))
    as Hsalt by (vm_compute; reflexivity).
  split_and!; [exact Hup|exact Hsalt|].
  exact (getSecurityParams_misses_persisted_salt (P := platform) _ stored Hup Hsalt).
Defined.

(** X9 at a rotation before anything was written. *)
Lemma changePassword_empty_store_installs_new_key_witness :
  is_Some (masterKey (this started))
  ∧ "ma-base" ≠ "SecureStorageParams"
  ∧ databases (world started) !! "ma-base" = None
  ∧ ∃ env',
      changePassword "nouveau-mot-de-passe" "ma-base" ["utilisateurs"] started
      = (Return (), env')
      ∧ masterKey (this env') = Some (nextKey (world started))
      ∧ persisted_salt (world env')
        = Some (random_block (world started) (drawn (world started)) SALT_LENGTH)
      ∧ entries (world env') "ma-base" "utilisateurs" = Some [].
Proof.
  assert (databases (world started) !! "ma-base" = None) as Hnew
    by (vm_compute; reflexivity).
  split_and!; [eexists; vm_compute; reflexivity|discriminate|exact Hnew|].
  apply (changePassword_empty_store_installs_new_key (P := platform)
           "nouveau-mot-de-passe" "ma-base" "utilisateurs" started
           (default staleKey (masterKey (this started)))
           (String.list_byte_of_string "nouveau-mot-de-passe")
           (nextKey (world started))).
  - vm_compute. reflexivity.
  - discriminate.
  - apply (bool_decide_unpack _). vm_compute. exact I.
  - apply (bool_decide_unpack _). vm_compute. exact I.
  - right. exact Hnew.
  - reflexivity.
  - reflexivity.
Defined.

(** X10 at a rotation naming a store that ["ma-base"] does not have. *)
Lemma changePassword_unreadable_store_witness :
  masterKey (this stored) = Some currentKey
  ∧ (∃ db, databases (world stored) !! "ma-base" = Some db ∧ db !! "inconnu" = None)
  ∧ ∃ env',
      changePassword "nouveau-mot-de-passe" "ma-base" ["inconnu"; "utilisateurs"] stored
      = (Throw (Error MSG_CHANGE_PASSWORD), env')
      ∧ this env' = this stored
      ∧ databases (world env') = databases (world stored)
      ∧ securityDb (world env') = securityDb (world stored)
      ∧ drawn (world env') = drawn (world stored).
Proof.
  assert (masterKey (this stored) = Some currentKey) as Hkey by (vm_compute; reflexivity).
  assert (∃ db, databases (world stored) !! "ma-base" = Some db ∧ db !! "inconnu" = None)
    as Hmissing by (eexists; split; vm_compute; reflexivity).
  split_and!; [exact Hkey|exact Hmissing|].
  exact (changePassword_unreadable_store (P := platform) "nouveau-mot-de-passe" "ma-base"
           "inconnu" ["utilisateurs"] stored currentKey Hkey (or_intror Hmissing)).
Defined.

(** X11 at a rotation in a browser that refuses the parameter store. *)
Lemma changePassword_salt_not_saved_witness :
  masterKey (this params_blocked) = Some currentKey
  ∧ ("SecureStorageParams" ∈ unavailable (world params_blocked))
  ∧ is_Some (entries (world params_blocked) "ma-base" "utilisateurs")
  ∧ ∃ env',
      changePassword "nouveau-mot-de-passe" "ma-base" ["utilisateurs"] params_blocked
      = (Throw (Error MSG_CHANGE_PASSWORD), env')
      ∧ masterKey (this env') = Some (nextKey (world params_blocked))
      ∧ databases (world env') = databases (world params_blocked)
      ∧ securityDb (world env') = securityDb (world params_blocked).
Proof.
  assert (masterKey (this params_blocked) = Some currentKey) as Hkey
    by (vm_compute; reflexivity).
  assert ("SecureStorageParams" ∈ unavailable (world params_blocked)) as Hdown
    by (apply (bool_decide_unpack _); vm_compute; exact I).
  assert (is_Some (entries (world params_blocked) "ma-base" "utilisateurs")) as Hstore
    by (eexists; vm_compute; reflexivity).
  split_and!; [exact Hkey|exact Hdown|exact Hstore|].
  apply (changePassword_salt_not_saved (P := platform) "nouveau-mot-de-passe" "ma-base"
           "utilisateurs" [] params_blocked currentKey
           (String.list_byte_of_string "nouveau-mot-de-passe")
           (nextKey (world params_blocked)) Hkey).
  - apply (bool_decide_unpack _). vm_compute. exact I.
  - exact Hstore.
  - exact Hdown.
  - reflexivity.
  - reflexivity.
Defined.

(** X12 at the store ["archives"], whose entry was sealed under another
    key. *)
Lemma changePassword_fails_after_salt_replaced_witness :
  masterKey (this two_stores) = Some currentKey
  ∧ entries (world two_stores) "ma-base" "archives" = Some [stale]
  ∧ aes_gcm_decrypt currentKey (iv stale) (encryptedData stale) = None
  ∧ persisted_salt (world two_stores) = Some (random_block browser 0 SALT_LENGTH)
  ∧ ∃ env',
      changePassword "nouveau-mot-de-passe" "ma-base" ["archives"] two_stores
      = (Throw (Error MSG_CHANGE_PASSWORD), env')
      ∧ masterKey (this env') = Some currentKey
      ∧ databases (world env') = databases (world two_stores)
      ∧ persisted_salt (world env')
        = Some (random_block (world two_stores) (drawn (world two_stores)) SALT_LENGTH).
Proof.
  assert (masterKey (this two_stores) = Some currentKey) as Hkey
    by (vm_compute; reflexivity).
  assert (entries (world two_stores) "ma-base" "archives" = Some [stale]) as Hstore
    by (vm_compute; reflexivity).
  assert (aes_gcm_decrypt currentKey (iv stale) (encryptedData stale) = None) as Hclosed
    by (vm_compute; reflexivity).
  split_and!; [exact Hkey|exact Hstore|exact Hclosed|vm_compute; reflexivity|].
  apply (changePassword_fails_after_salt_replaced (P := platform) "nouveau-mot-de-passe"
           "ma-base" "archives" [] two_stores currentKey
           (String.list_byte_of_string "nouveau-mot-de-passe")
           (nextKey (world two_stores)) stale []).
  - vm_compute. reflexivity.
  - exact Hkey.
  - apply (bool_decide_unpack _). vm_compute. exact I.
  - apply (bool_decide_unpack _). vm_compute. exact I.
  - exact Hstore.
  - reflexivity.
  - reflexivity.
  - exact Hclosed.
Defined.

(** X13 at the entry of [user] followed by the entry sealed under
    another key. *)
Lemma reencrypt_loop_has_no_rollback_witness :
  let turn := reencrypt_item currentKey "ma-base" "utilisateurs" in
  let env1 := snd (for_of [entry_a] turn stored) in
  let env2 := snd (turn stale env1) in
  fst (for_of [entry_a] turn stored) = Return ()
  ∧ fst (turn stale env1) = Throw (Error MSG_DECRYPT)
  ∧ for_of ([entry_a] ++ stale :: [entry_a]) turn stored = (Throw (Error MSG_DECRYPT), env2)
  ∧ databases (world env2) = databases (world env1).
Proof.
  intros turn env1 env2.
  assert (for_of [entry_a] turn stored = (Return (), env1)) as Hcompleted
    by (vm_compute; reflexivity).
  assert (turn stale env1 = (Throw (Error MSG_DECRYPT), env2)) as Hfailing
    by (vm_compute; reflexivity).
  split_and!; [vm_compute; reflexivity..| |].
  all: apply (reencrypt_loop_has_no_rollback (P := platform) currentKey "ma-base"
                "utilisateurs" [entry_a] stale [entry_a] stored env1
                (Error MSG_DECRYPT) env2 Hcompleted Hfailing).
Defined.

(** X14 at a salt passed in, in an empty browser and after the two
    writes. *)
Lemma same_password_and_salt_reopen_witness :
  let first := new_SecureStorage "mot-de-passe-secret" (Some chosen_salt) browser in
  let second := new_SecureStorage "mot-de-passe-secret" (Some chosen_salt) (world stored) in
  ready (this first) = Fulfilled
  ∧ ready (this second) = Fulfilled
  ∧ masterKey (this second) = masterKey (this first)
  ∧ ∃ encrypted nonce env',
      encrypt user first = (Return (encrypted, nonce), env')
      ∧ fst (decrypt (Some encrypted) (Some nonce) second) = Return user.
Proof.
  intros first second.
  assert (ready (this first) = Fulfilled) as Hfirst by (vm_compute; reflexivity).
  assert (ready (this second) = Fulfilled) as Hsecond by (vm_compute; reflexivity).
  split_and!; [exact Hfirst|exact Hsecond|..].
  all: apply (same_password_and_salt_reopen (P := platform) "mot-de-passe-secret"
                chosen_salt browser (world stored) user Hfirst Hsecond).
  all: eexists; reflexivity.
Defined.
